(** * Aurelia: attribute binding and router matching

    A shallow embedding of [AttributeBinding] (the attribute binding of
    the HTML runtime: [updateTarget], [updateSource], [handleChange],
    [$bind], [$unbind]) and of the route matching that the router
    configuration tests exercise, with the properties of both. *)

From Stdlib Require Import ZArith List String Ascii Bool Lia.
Import ListNotations.
Local Open Scope Z_scope.

(** ** JavaScript values and the operators the binding uses *)

Module JS.

(** The values that flow through a binding ([unknown] in the source).
    [VNaN] is kept apart from the other numbers because [!==] treats
    it differently. Objects are heap addresses: [===] on them is
    identity. *)
Inductive Value : Type :=
| VUndefined
| VNull
| VBool (b : bool)
| VNum (n : Z)
| VNaN
| VStr (s : string)
| VRef (address : nat).

(** [a === b]. *)
Definition strict_eq (a b : Value) : bool :=
  match a, b with
  | VUndefined, VUndefined => true
  | VNull, VNull => true
  | VBool x, VBool y => Bool.eqb x y
  | VNum x, VNum y => x =? y
  | VStr x, VStr y => String.eqb x y
  | VRef x, VRef y => Nat.eqb x y
  | _, _ => false
  end.

(** [a !== b]. *)
Definition strict_neq (a b : Value) : bool := negb (strict_eq a b).

(** Truthiness of a number, as in [if (x & y)]. On 32-bit integers
    [&], [|] and [~] are [Z.land], [Z.lor] and [Z.lnot]: the three
    keep two's-complement values inside the 32-bit range, so no
    wrap-around is written out. *)
Definition truthy (z : Z) : bool := negb (z =? 0).

(** A field of type [number] that counts. Until something assigns it
    the field is [undefined]; [x++] on [undefined] leaves [NaN], and
    [NaN++] leaves [NaN]. *)
Inductive Counter : Type :=
| Unassigned
| NotANumber
| Count (n : Z).

(** The value of [x] after [x++]. *)
Definition increment (x : Counter) : Counter :=
  match x with
  | Count n => Count (n + 1)
  | Unassigned | NotANumber => NotANumber
  end.

(** [x > k]: false when [x] is [undefined] or [NaN]. *)
Definition greaterThan (x : Counter) (k : Z) : bool :=
  match x with
  | Count n => k <? n
  | Unassigned | NotANumber => false
  end.

End JS.

(** ** The attribute binding *)

Module AttributeBinding.
Import JS.

(** *** Collaborators

    The target observer, the source expression and the scheduler live
    in other packages. The binding only calls them; every call is
    recorded in the world's trace, and what a call returns is read
    from the world. *)

(** A scope is a heap object; [$scope === scope] compares addresses. *)
Definition ScopeRef := nat.
Definition TaskId := nat.

(** The target observer ([AccessorOrObserver]): its [type] bits, what
    [getValue()] returns, its [lastUpdate] stamp, which of the
    optional methods it has, and the flag slot [targetObserver[id]]
    of this binding. *)
Record Observer : Type := mkObserver {
  otype : Z;
  currentValue : Value;
  lastUpdate : Z;
  hasObserverBind : bool;
  hasObserverUnbind : bool;
  hasUnsubscribe : bool;
  idSlot : Z
}.

(** The enum members and the constructor that the module imports from
    [@aurelia/runtime] and [../observation/element-attribute-observer]. *)
Class Runtime : Type := {
  State_none : Z;
  State_isBinding : Z;
  State_isUnbinding : Z;
  State_isBound : Z;
  LifecycleFlags_none : Z;
  LifecycleFlags_updateTargetInstance : Z;
  LifecycleFlags_updateSourceExpression : Z;
  LifecycleFlags_persistentBindingFlags : Z;
  LifecycleFlags_fromBind : Z;
  LifecycleFlags_mustEvaluate : Z;
  BindingMode_oneTime : Z;
  BindingMode_toView : Z;
  BindingMode_fromView : Z;
  ObserverType_Node : Z;
  ObserverType_Layout : Z;
  ExpressionKind_AccessScope : Z;
  (** [new AttributeObserver(scheduler, flags, observerLocator, target,
      targetProperty, targetAttribute)] *)
  AttributeObserver_new : Z -> string -> string -> Observer
}.

(** The fields of the binding object, with the parts of the source
    expression the binding looks at ([$kind], and whether it has
    [bind] and [unbind]). *)
Record Binding : Type := mkBinding {
  state : Z;                       (* $state *)
  scope : option ScopeRef;         (* $scope, None for null *)
  part : option string;
  task : option TaskId;
  targetObserverSet : bool;        (* targetObserver is not undefined *)
  persistentFlags : Z;
  mode : Z;
  targetAttribute : string;
  targetProperty : string;
  observerSlots : Counter;         (* declared by IConnectableBinding *)
  version : Counter;               (* declared by IConnectableBinding *)
  kind : Z;                        (* sourceExpression.$kind *)
  exprHasBind : bool;              (* hasBind(sourceExpression) *)
  exprHasUnbind : bool             (* hasUnbind(sourceExpression) *)
}.

(** The two closures the binding hands to the scheduler, with the
    variables each captures. *)
Inductive TaskBody : Type :=
| RenderUpdate (updateTime : Z) (newValue : Value) (flags : Z)
| InitialUpdate (flags : Z) (scope : ScopeRef) (part : option string).

Record Task : Type := mkTask { tid : TaskId; body : TaskBody }.

(** Modelled from the spec: the scheduler ([IScheduler], in
    [@aurelia/runtime]). Two first-in first-out queues, one of
    microtasks and one of render-tick tasks; a task can be cancelled
    until it runs, and a cancelled task never runs. *)
Record Scheduler : Type := mkScheduler {
  microTasks : list Task;
  renderTasks : list Task;
  nextTaskId : TaskId
}.

Inductive Event : Type :=
| GetValue
| SetValue (value : Value) (flags : Z)
| Evaluate (flags : Z) (scope : option ScopeRef) (part : option string)
| Assign (flags : Z) (scope : option ScopeRef) (value : Value)
| Connect (flags : Z) (scope : option ScopeRef) (part : option string)
| Unobserve (all : bool)
| ExpressionBind (flags : Z) (scope : ScopeRef)
| ExpressionUnbind (flags : Z) (scope : option ScopeRef)
| ObserverCreate (flags : Z)
| ObserverBind (flags : Z)
| ObserverUnbind (flags : Z)
| Subscribe
| Unsubscribe
| QueueRenderTask (id : TaskId)
| QueueMicroTask (id : TaskId)
| CancelTask (id : TaskId).

(** The binding, the objects it points to, the clock behind
    [Date.now()], and the calls made so far, oldest first. [store]
    is what the source expression evaluates to in each scope;
    [assign] writes it. *)
Record World : Type := mkWorld {
  binding : Binding;
  observer : Observer;
  store : option ScopeRef -> Value;
  now : Z;
  scheduler : Scheduler;
  trace : list Event
}.

(** *** A state monad over the world *)

Definition M (A : Type) : Type := World -> A * World.

Definition ret {A : Type} (a : A) : M A := fun w => (a, w).

Definition mbind {A B : Type} (m : M A) (k : A -> M B) : M B :=
  fun w => let (a, w') := m w in k a w'.

Definition exec {A : Type} (m : M A) (w : World) : World := snd (m w).

Declare Scope binding_scope.
Delimit Scope binding_scope with binding.
Notation "x <- m ;; k" := (mbind m (fun x => k))
  (at level 61, m at next level, right associativity) : binding_scope.
Notation "m ;; k" := (mbind m (fun _ => k))
  (at level 61, right associativity) : binding_scope.
Local Open Scope binding_scope.

Definition when (c : bool) (m : M unit) : M unit :=
  if c then m else ret tt.

Definition read {A : Type} (f : World -> A) : M A := fun w => (f w, w).

Definition emit (e : Event) : M unit :=
  fun w => (tt, mkWorld (binding w) (observer w) (store w) (now w)
                        (scheduler w) (trace w ++ [e])).

Definition modifyBinding (f : Binding -> Binding) : M unit :=
  fun w => (tt, mkWorld (f (binding w)) (observer w) (store w) (now w)
                        (scheduler w) (trace w)).

Definition modifyObserver (f : Observer -> Observer) : M unit :=
  fun w => (tt, mkWorld (binding w) (f (observer w)) (store w) (now w)
                        (scheduler w) (trace w)).

Definition modifyStore (f : (option ScopeRef -> Value) -> option ScopeRef -> Value) : M unit :=
  fun w => (tt, mkWorld (binding w) (observer w) (f (store w)) (now w)
                        (scheduler w) (trace w)).

Definition modifyScheduler (f : Scheduler -> Scheduler) : M unit :=
  fun w => (tt, mkWorld (binding w) (observer w) (store w) (now w)
                        (f (scheduler w)) (trace w)).

(** Field assignments on [this]. *)
Definition set_state (v : Z) (b : Binding) : Binding :=
  mkBinding v (scope b) (part b) (task b) (targetObserverSet b)
            (persistentFlags b) (mode b) (targetAttribute b)
            (targetProperty b) (observerSlots b) (version b) (kind b)
            (exprHasBind b) (exprHasUnbind b).

Definition set_scope (v : option ScopeRef) (b : Binding) : Binding :=
  mkBinding (state b) v (part b) (task b) (targetObserverSet b)
            (persistentFlags b) (mode b) (targetAttribute b)
            (targetProperty b) (observerSlots b) (version b) (kind b)
            (exprHasBind b) (exprHasUnbind b).

Definition set_part (v : option string) (b : Binding) : Binding :=
  mkBinding (state b) (scope b) v (task b) (targetObserverSet b)
            (persistentFlags b) (mode b) (targetAttribute b)
            (targetProperty b) (observerSlots b) (version b) (kind b)
            (exprHasBind b) (exprHasUnbind b).

Definition set_task (v : option TaskId) (b : Binding) : Binding :=
  mkBinding (state b) (scope b) (part b) v (targetObserverSet b)
            (persistentFlags b) (mode b) (targetAttribute b)
            (targetProperty b) (observerSlots b) (version b) (kind b)
            (exprHasBind b) (exprHasUnbind b).

Definition set_targetObserverSet (v : bool) (b : Binding) : Binding :=
  mkBinding (state b) (scope b) (part b) (task b) v
            (persistentFlags b) (mode b) (targetAttribute b)
            (targetProperty b) (observerSlots b) (version b) (kind b)
            (exprHasBind b) (exprHasUnbind b).

Definition set_persistentFlags (v : Z) (b : Binding) : Binding :=
  mkBinding (state b) (scope b) (part b) (task b) (targetObserverSet b)
            v (mode b) (targetAttribute b)
            (targetProperty b) (observerSlots b) (version b) (kind b)
            (exprHasBind b) (exprHasUnbind b).

Definition set_version (v : Counter) (b : Binding) : Binding :=
  mkBinding (state b) (scope b) (part b) (task b) (targetObserverSet b)
            (persistentFlags b) (mode b) (targetAttribute b)
            (targetProperty b) (observerSlots b) v (kind b)
            (exprHasBind b) (exprHasUnbind b).

Definition set_currentValue (v : Value) (o : Observer) : Observer :=
  mkObserver (otype o) v (lastUpdate o) (hasObserverBind o)
             (hasObserverUnbind o) (hasUnsubscribe o) (idSlot o).

Definition set_idSlot (v : Z) (o : Observer) : Observer :=
  mkObserver (otype o) (currentValue o) (lastUpdate o) (hasObserverBind o)
             (hasObserverUnbind o) (hasUnsubscribe o) v.

(** *** Calls on the collaborators *)

(** Modelled from the spec: [targetObserver.getValue()] (the observers
    are in [@aurelia/runtime] and [../observation]): the value the
    observer holds. *)
Definition getValue : M Value :=
  emit GetValue ;; read (fun w => currentValue (observer w)).

(** Modelled from the spec: [targetObserver.setValue(value, flags)]
    (the observers are not among the sources): the observer keeps what
    it is given. When it moves its [lastUpdate] stamp is its own
    business; the stamp changes with the environment (see [step]). *)
Definition setValue (value : Value) (flags : Z) : M unit :=
  emit (SetValue value flags) ;; modifyObserver (set_currentValue value).

(** Modelled from the spec:
    [sourceExpression.evaluate(flags, scope, locator, part)] (the
    expression evaluator is in [@aurelia/runtime]): it evaluates the
    expression against the scope and produces a value. *)
Definition evaluate (flags : Z) (sc : option ScopeRef) (p : option string) : M Value :=
  emit (Evaluate flags sc p) ;; read (fun w => store w sc).

Definition scope_eqb (a b : option ScopeRef) : bool :=
  match a, b with
  | Some x, Some y => Nat.eqb x y
  | None, None => true
  | _, _ => false
  end.

(** Modelled from the spec:
    [sourceExpression.assign(flags, scope, locator, value)] (the
    expression evaluator is in [@aurelia/runtime]): it pushes the value
    into the source, where the next evaluation finds it. *)
Definition assign (flags : Z) (sc : option ScopeRef) (value : Value) : M unit :=
  emit (Assign flags sc value) ;;
  modifyStore (fun st k => if scope_eqb k sc then value else st k).

(** Modelled from the spec: [task.cancel()] (the scheduler is in
    [@aurelia/runtime]): a pending task leaves its queue and never
    runs; on a task that already ran or was cancelled nothing
    happens. *)
Definition dropTask (id : TaskId) (q : list Task) : list Task :=
  filter (fun t => negb (Nat.eqb (tid t) id)) q.

Definition cancel (id : TaskId) : M unit :=
  emit (CancelTask id) ;;
  modifyScheduler (fun s => mkScheduler (dropTask id (microTasks s))
                                        (dropTask id (renderTasks s))
                                        (nextTaskId s)).

(** Modelled from the spec:
    [$scheduler.queueRenderTask(callback, taskOptions)] (the scheduler
    is in [@aurelia/runtime]): the task joins the render queue at its
    end. *)
Definition queueRenderTask (b : TaskBody) : M TaskId :=
  id <- read (fun w => nextTaskId (scheduler w)) ;;
  modifyScheduler (fun s => mkScheduler (microTasks s)
                                        (renderTasks s ++ [mkTask id b])
                                        (S id)) ;;
  emit (QueueRenderTask id) ;;
  ret id.

(** Modelled from the spec:
    [$scheduler.queueMicroTask(callback, taskOptions)] (the scheduler
    is in [@aurelia/runtime]): the task joins the microtask queue at
    its end. *)
Definition queueMicroTask (b : TaskBody) : M TaskId :=
  id <- read (fun w => nextTaskId (scheduler w)) ;;
  modifyScheduler (fun s => mkScheduler (microTasks s ++ [mkTask id b])
                                        (renderTasks s)
                                        (S id)) ;;
  emit (QueueMicroTask id) ;;
  ret id.

(** [if (this.task != null) { this.task.cancel(); }] *)
Definition cancelPending : M unit :=
  t <- read (fun w => task (binding w)) ;;
  match t with
  | Some id => cancel id
  | None => ret tt
  end.

Section Methods.
Context {R : Runtime}.

(** [this.$state & State.isBound] *)
Definition isBound (w : World) : bool :=
  truthy (Z.land (state (binding w)) State_isBound).

(** [updateTarget(value, flags)]. The [interceptor] of a binding is
    the binding itself unless a binding behavior wraps it; the
    methods below are those of the unwrapped binding. *)
Definition updateTarget (value : Value) (flags : Z) : M unit :=
  pf <- read (fun w => persistentFlags (binding w)) ;;
  let flags := Z.lor flags pf in
  setValue value (Z.lor flags LifecycleFlags_updateTargetInstance).

(** [updateSource(value, flags)] *)
Definition updateSource (value : Value) (flags : Z) : M unit :=
  pf <- read (fun w => persistentFlags (binding w)) ;;
  let flags := Z.lor flags pf in
  sc <- read (fun w => scope (binding w)) ;;
  assign (Z.lor flags LifecycleFlags_updateSourceExpression) sc value.

(** The flags [handleChange] works with, after
    [flags |= this.persistentFlags] and the [fromView] adjustment. *)
Definition adjustFlags (b : Binding) (flags : Z) : Z :=
  let flags := Z.lor flags (persistentFlags b) in
  if mode b =? BindingMode_fromView
  then Z.lor (Z.land flags (Z.lnot LifecycleFlags_updateTargetInstance))
             LifecycleFlags_updateSourceExpression
  else flags.

(** Whether the target branch evaluates the expression again:
    [$kind !== ExpressionKind.AccessScope || this.observerSlots > 1]. *)
Definition reevaluates (b : Binding) : bool :=
  negb (kind b =? ExpressionKind_AccessScope) || greaterThan (observerSlots b) 1.

(** The value the target branch compares with the observer's:
    [newValue] after
    [if (...) { newValue = this.sourceExpression.evaluate(...) }]. *)
Definition latestValue (w : World) (newValue : Value) : Value :=
  if reevaluates (binding w)
  then store w (scope (binding w))
  else newValue.

(** The render-tick callback queued by [handleChange]. *)
Definition renderCallback (updateTime : Z) (newValue : Value) (flags : Z) : M unit :=
  lu <- read (fun w => lastUpdate (observer w)) ;;
  st <- read (fun w => state (binding w)) ;;
  when ((lu <? updateTime) && (0 <? Z.land st State_isBound))
       (updateTarget newValue flags).

(** The microtask callback queued by [$bind]. *)
Definition initialCallback (flags : Z) (sc : ScopeRef) (p : option string) : M unit :=
  v <- evaluate flags (Some sc) p ;;
  updateTarget v flags.

Definition runBody (b : TaskBody) : M unit :=
  match b with
  | RenderUpdate updateTime newValue flags => renderCallback updateTime newValue flags
  | InitialUpdate flags sc p => initialCallback flags sc p
  end.

(** The branch of [handleChange] under
    [if (flags & LifecycleFlags.updateTargetInstance)]. *)
Definition handleTargetChange (newValue : Value) (flags : Z) : M unit :=
  previousValue <- getValue ;;
  b <- read binding ;;
  o <- read observer ;;
  newValue <- (if reevaluates b
               then evaluate flags (scope b) (part b)
               else ret newValue) ;;
  when (strict_neq newValue previousValue)
       (if 0 <? Z.land (otype o) ObserverType_Layout
        then
          cancelPending ;;
          updateTime <- read now ;;
          id <- queueRenderTask (RenderUpdate updateTime newValue flags) ;;
          modifyBinding (set_task (Some id))
        else
          updateTarget newValue flags) ;;
  when (Z.land (mode b) BindingMode_oneTime =? 0)
       (modifyBinding (fun b => set_version (increment (version b)) b) ;;
        emit (Connect flags (scope b) (part b)) ;;
        emit (Unobserve false)).

(** The branch of [handleChange] under
    [if (flags & LifecycleFlags.updateSourceExpression)]. *)
Definition handleSourceChange (newValue : Value) (flags : Z) : M unit :=
  b <- read binding ;;
  current <- evaluate flags (scope b) (part b) ;;
  when (strict_neq newValue current)
       (updateSource newValue flags).

Inductive Error : Type :=
| ReporterError (code : Z) (flags : Z).

Inductive Outcome : Type :=
| Returned (w : World)
| Thrown (e : Error) (w : World).

(** [handleChange(newValue, _previousValue, flags)] *)
Definition handleChange (newValue _previousValue : Value) (flags : Z) (w : World) : Outcome :=
  if negb (isBound w) then Returned w
  else
    let flags := adjustFlags (binding w) flags in
    if truthy (Z.land flags LifecycleFlags_updateTargetInstance)
    then Returned (exec (handleTargetChange newValue flags) w)
    else if truthy (Z.land flags LifecycleFlags_updateSourceExpression)
    then Returned (exec (handleSourceChange newValue flags) w)
    else Thrown (ReporterError 15 flags) w.

(** [$unbind(flags)] *)
Definition dollar_unbind (flags : Z) : M unit :=
  bound <- read isBound ;;
  if negb bound then ret tt
  else
    modifyBinding (fun b => set_state (Z.lor (state b) State_isUnbinding) b) ;;
    modifyBinding (set_persistentFlags LifecycleFlags_none) ;;
    b <- read binding ;;
    when (exprHasUnbind b) (emit (ExpressionUnbind flags (scope b))) ;;
    modifyBinding (set_scope None) ;;
    o <- read observer ;;
    when (hasObserverUnbind o) (emit (ObserverUnbind flags)) ;;
    when (hasUnsubscribe o)
         (emit Unsubscribe ;;
          modifyObserver (fun o => set_idSlot
             (Z.land (idSlot o) (Z.lnot LifecycleFlags_updateSourceExpression)) o)) ;;
    emit (Unobserve true) ;;
    modifyBinding (fun b => set_state
       (Z.land (state b) (Z.lnot (Z.lor State_isBound State_isUnbinding))) b).

(** [$bind] from [this.$state |= State.isBinding] to its end. *)
Definition bindBody (flags : Z) (sc : ScopeRef) (p : option string) : M unit :=
  modifyBinding (fun b => set_state (Z.lor (state b) State_isBinding) b) ;;
  modifyBinding (set_persistentFlags
                   (Z.land flags LifecycleFlags_persistentBindingFlags)) ;;
  modifyBinding (set_scope (Some sc)) ;;
  modifyBinding (set_part p) ;;
  b <- read binding ;;
  when (exprHasBind b) (emit (ExpressionBind flags sc)) ;;
  when (negb (targetObserverSet b))
       (emit (ObserverCreate flags) ;;
        modifyObserver (fun _ => AttributeObserver_new flags (targetProperty b)
                                                       (targetAttribute b)) ;;
        modifyBinding (set_targetObserverSet true)) ;;
  o <- read observer ;;
  when (hasObserverBind o) (emit (ObserverBind flags)) ;;
  let mode' := mode b in
  when (truthy (Z.land mode' (Z.lor BindingMode_toView BindingMode_oneTime)))
       (when (truthy (Z.land (otype o) ObserverType_Node))
             (cancelPending ;;
              id <- queueMicroTask (InitialUpdate flags sc p) ;;
              modifyBinding (set_task (Some id))) ;;
        v <- evaluate flags (Some sc) p ;;
        updateTarget v flags) ;;
  when (truthy (Z.land mode' BindingMode_toView))
       (emit (Connect flags (Some sc) p)) ;;
  when (truthy (Z.land mode' BindingMode_fromView))
       (modifyObserver (fun o => set_idSlot
           (Z.lor (idSlot o) LifecycleFlags_updateSourceExpression) o) ;;
        emit Subscribe) ;;
  modifyBinding (fun b => set_state (Z.lor (state b) State_isBound) b) ;;
  modifyBinding (fun b => set_state (Z.land (state b) (Z.lnot State_isBinding)) b).

(** [$bind(flags, scope, part)] *)
Definition dollar_bind (flags : Z) (sc : ScopeRef) (p : option string) : M unit :=
  bound <- read isBound ;;
  cur <- read (fun w => scope (binding w)) ;;
  if bound && scope_eqb cur (Some sc) then ret tt
  else
    when bound (dollar_unbind (Z.lor flags LifecycleFlags_fromBind)) ;;
    bindBody flags sc p.

(** [connect(flags)] *)
Definition connect (flags : Z) : M unit :=
  bound <- read isBound ;;
  when bound
       (b <- read binding ;;
        let flags := Z.lor flags (persistentFlags b) in
        emit (Connect (Z.lor flags LifecycleFlags_mustEvaluate) (scope b) (part b))).

(** *** The scheduler's ticks *)

(** The pending tasks of the binding, in both queues. *)
Definition pending (w : World) : list Task :=
  microTasks (scheduler w) ++ renderTasks (scheduler w).

(** Modelled from the spec: a microtask pass of the scheduler (in
    [@aurelia/runtime]), one task at a time: the oldest microtask
    leaves the queue and runs. *)
Definition runMicroTask : M unit :=
  q <- read (fun w => microTasks (scheduler w)) ;;
  match q with
  | [] => ret tt
  | t :: rest =>
      modifyScheduler (fun s => mkScheduler rest (renderTasks s) (nextTaskId s)) ;;
      runBody (body t)
  end.

(** Modelled from the spec: a render tick of the scheduler (in
    [@aurelia/runtime]), one task at a time: the oldest render task
    leaves the queue and runs. *)
Definition runRenderTask : M unit :=
  q <- read (fun w => renderTasks (scheduler w)) ;;
  match q with
  | [] => ret tt
  | t :: rest =>
      modifyScheduler (fun s => mkScheduler (microTasks s) rest (nextTaskId s)) ;;
      runBody (body t)
  end.

(** What can happen to a binding: its methods are called, the
    scheduler runs one of its tasks, or the environment moves (time
    passes, the observer or the scope change under other writers)
    without touching the binding, its tasks or the record of its
    calls. *)
Inductive step : World -> World -> Prop :=
| step_handleChange (newValue previousValue : Value) (flags : Z) (w w' : World) :
    handleChange newValue previousValue flags w = Returned w' -> step w w'
| step_bind (flags : Z) (sc : ScopeRef) (p : option string) (w : World) :
    step w (exec (dollar_bind flags sc p) w)
| step_unbind (flags : Z) (w : World) :
    step w (exec (dollar_unbind flags) w)
| step_connect (flags : Z) (w : World) :
    step w (exec (connect flags) w)
| step_micro (w : World) :
    step w (exec runMicroTask w)
| step_render (w : World) :
    step w (exec runRenderTask w)
| step_environment (w : World) (o : Observer) (st : option ScopeRef -> Value) (t : Z) :
    now w <= t ->
    step w (mkWorld (binding w) o st t (scheduler w) (trace w)).

Inductive reachable (w0 : World) : World -> Prop :=
| reachable_refl : reachable w0 w0
| reachable_step (w w' : World) : reachable w0 w -> step w w' -> reachable w0 w'.

(** A binding as its field initialisers and its constructor leave it:
    [$state], [$scope], [task] and [persistentFlags] are initialised,
    [part] and [targetObserver] are not, and neither are
    [observerSlots] and [version], which the class only declares. *)
Definition newBinding (mode kind : Z) (hasBind hasUnbind : bool)
           (targetAttribute targetProperty : string) : Binding :=
  mkBinding State_none None None None false LifecycleFlags_none mode
            targetAttribute targetProperty Unassigned Unassigned
            kind hasBind hasUnbind.

Definition newWorld (b : Binding) (o : Observer)
           (st : option ScopeRef -> Value) (t : Z) : World :=
  mkWorld b o st t (mkScheduler [] [] 0%nat) [].

End Methods.

(** *** Reading the trace *)

(** The calls made between two worlds, the second a successor of the
    first. *)
Definition events_since (w w' : World) : list Event :=
  skipn (List.length (trace w)) (trace w').

Definition is_target_write (e : Event) : bool :=
  match e with SetValue _ _ => true | _ => false end.

Definition is_source_write (e : Event) : bool :=
  match e with Assign _ _ _ => true | _ => false end.

Definition is_microtask_queued (e : Event) : bool :=
  match e with QueueMicroTask _ => true | _ => false end.

Definition is_task_queued (e : Event) : bool :=
  match e with QueueMicroTask _ | QueueRenderTask _ => true | _ => false end.

(** The calls [$unbind] makes on a bound binding. *)
Definition unbindEvents (w : World) (flags : Z) : list Event :=
  (if exprHasUnbind (binding w)
   then [ExpressionUnbind flags (scope (binding w))] else []) ++
  (if hasObserverUnbind (observer w) then [ObserverUnbind flags] else []) ++
  (if hasUnsubscribe (observer w) then [Unsubscribe] else []) ++
  [Unobserve true].

(** The observer [$bind] works with: the one the binding has, or the
    [AttributeObserver] it constructs. *)
Definition boundObserver {R : Runtime} (w : World) (flags : Z) : Observer :=
  if targetObserverSet (binding w)
  then observer w
  else AttributeObserver_new flags (targetProperty (binding w))
                             (targetAttribute (binding w)).

(** The binding owns every pending task through its [task] field,
    and there is at most one. *)
Definition owns_pending {R : Runtime} (w : World) : Prop :=
  (forall t, In t (pending w) -> task (binding w) = Some (tid t)) /\
  (List.length (pending w) <= 1)%nat.

(** One assignment of the imported constants, to run the methods on
    examples: the flags of an enum get bits of their own. The observer
    that [$bind] constructs is a node observer here. *)
#[local] Instance sampleRuntime : Runtime := {|
  State_none := 0;
  State_isBinding := 1;
  State_isUnbinding := 2;
  State_isBound := 4;
  LifecycleFlags_none := 0;
  LifecycleFlags_updateTargetInstance := 1;
  LifecycleFlags_updateSourceExpression := 2;
  LifecycleFlags_persistentBindingFlags := 960;
  LifecycleFlags_fromBind := 4;
  LifecycleFlags_mustEvaluate := 32;
  BindingMode_oneTime := 1;
  BindingMode_toView := 2;
  BindingMode_fromView := 4;
  ObserverType_Node := 2;
  ObserverType_Layout := 4;
  ExpressionKind_AccessScope := 10082;
  AttributeObserver_new := fun _ _ _ => mkObserver 2 VNull 0 true true true 0
|}.

(** Example observers and scopes. *)
Definition layoutObserver : Observer := mkObserver 4 (VStr "old") 0 false false true 0.
Definition nodeObserver : Observer := mkObserver 2 (VStr "old") 0 false false true 0.

Definition sampleStore (sc : option ScopeRef) : Value :=
  match sc with
  | Some 1%nat => VStr "one"
  | Some 2%nat => VStr "two"
  | _ => VUndefined
  end.

(** A binding of the given mode that has its target observer and is
    bound to scope 1, or not bound yet. Its expression is not an
    [AccessScope]. The bound one has counted its observers and
    versions from 0; the other has assigned neither counter. *)
Definition boundTo1 (mode : Z) (t : option TaskId) : Binding :=
  mkBinding 4 (Some 1%nat) None t true 0 mode "class" "class"
            (Count 0) (Count 0) 0 false false.

Definition notBound (mode : Z) : Binding :=
  mkBinding 0 None None None true 0 mode "class" "class"
            Unassigned Unassigned 0 false false.

(** The world after the environment has moved: the scopes hold [st]
    and the clock shows [t]. *)
Definition moved (st : option ScopeRef -> Value) (t : Z) (w : World) : World :=
  mkWorld (binding w) (observer w) st t (scheduler w) (trace w).

Definition worldOf (o : Outcome) : World :=
  match o with
  | Returned w => w
  | Thrown _ w => w
  end.

(** Scope 1 after its value has changed once, and twice. *)
Definition changedStore (sc : option ScopeRef) : Value :=
  match sc with
  | Some 1%nat => VStr "changed"
  | _ => VUndefined
  end.

Definition changedAgainStore (sc : option ScopeRef) : Value :=
  match sc with
  | Some 1%nat => VStr "changed again"
  | _ => VUndefined
  end.

(** A [toView] binding on a layout observer, as constructed. *)
Definition layoutStart : World :=
  newWorld (notBound 2) layoutObserver sampleStore 100.

(** The layout binding after [$bind] to scope 1, a change of the
    scope that it was notified of at time 150, and a second change at
    time 160 that it has not been notified of yet: the render task of
    the first change is still pending. *)
Definition layoutNotified : World :=
  worldOf (handleChange VUndefined VUndefined 1
             (moved changedStore 150 (exec (dollar_bind 0 1%nat None) layoutStart))).

Definition layoutWorld : World := moved changedAgainStore 160 layoutNotified.

(** A bound binding of the given mode on a plain observer that
    already shows the value of scope 1. *)
Definition settledWorld (mode : Z) : World :=
  mkWorld (boundTo1 mode None) (mkObserver 0 (VStr "one") 0 false false true 0)
          sampleStore 100 (mkScheduler [] [] 0%nat) [].

(** A [toView] binding on a node observer, not bound yet. *)
Definition freshNodeWorld : World :=
  mkWorld (notBound 2) nodeObserver sampleStore 100 (mkScheduler [] [] 0%nat) [].

End AttributeBinding.

(** ** Regular expressions of the tests

    The router tests check an error with
    [assert.match(e.message, /'a01'.+did not match.+'root'/)]. The
    patterns use literals and [.+] only. *)

Module Regex.
Local Open Scope string_scope.

Inductive Regex : Type :=
| Void
| Eps
| Sat (p : ascii -> bool)
| Seq (r1 r2 : Regex)
| Alt (r1 r2 : Regex)
| Star (r : Regex).

Fixpoint nullable (r : Regex) : bool :=
  match r with
  | Void => false
  | Eps => true
  | Sat _ => false
  | Seq r1 r2 => nullable r1 && nullable r2
  | Alt r1 r2 => nullable r1 || nullable r2
  | Star _ => true
  end.

(** What is left of [r] after reading [c]. *)
Fixpoint derive (c : ascii) (r : Regex) : Regex :=
  match r with
  | Void => Void
  | Eps => Void
  | Sat p => if p c then Eps else Void
  | Seq r1 r2 =>
      if nullable r1
      then Alt (Seq (derive c r1) r2) (derive c r2)
      else Seq (derive c r1) r2
  | Alt r1 r2 => Alt (derive c r1) (derive c r2)
  | Star r1 => Seq (derive c r1) (Star r1)
  end.

(** The whole of [s] matches [r]. *)
Fixpoint matches (r : Regex) (s : string) : bool :=
  match s with
  | EmptyString => nullable r
  | String c s' => matches (derive c r) s'
  end.

Definition Chr (c : ascii) : Regex := Sat (Ascii.eqb c).

Fixpoint Lit (s : string) : Regex :=
  match s with
  | EmptyString => Eps
  | String c s' => Seq (Chr c) (Lit s')
  end.

(** The line terminators among the 8-bit characters: line feed and
    carriage return. *)
Definition lineTerminator (c : ascii) : bool :=
  Ascii.eqb c (ascii_of_nat 10) || Ascii.eqb c (ascii_of_nat 13).

(** [.] *)
Definition Dot : Regex := Sat (fun c => negb (lineTerminator c)).

(** [r+] *)
Definition Plus (r : Regex) : Regex := Seq r (Star r).

Definition Anything : Regex := Star (Sat (fun _ => true)).

(** [re.test(s)] for a pattern without anchors: some substring of
    [s] matches. *)
Definition test (r : Regex) (s : string) : bool :=
  matches (Seq Anything (Seq r Anything)) s.

(** The strings of a pattern. *)
Inductive lang : Regex -> string -> Prop :=
| lang_eps : lang Eps ""
| lang_sat (p : ascii -> bool) (c : ascii) :
    p c = true -> lang (Sat p) (String c "")
| lang_seq (r1 r2 : Regex) (s1 s2 : string) :
    lang r1 s1 -> lang r2 s2 -> lang (Seq r1 r2) (s1 ++ s2)
| lang_alt_l (r1 r2 : Regex) (s : string) :
    lang r1 s -> lang (Alt r1 r2) s
| lang_alt_r (r1 r2 : Regex) (s : string) :
    lang r2 s -> lang (Alt r1 r2) s
| lang_star_nil (r : Regex) : lang (Star r) ""
| lang_star_cons (r : Regex) (s1 s2 : string) :
    lang r s1 -> lang (Star r) s2 -> lang (Star r) (s1 ++ s2).

(** No line terminator in [s]: what a run of [.] can read. *)
Fixpoint singleLine (s : string) : bool :=
  match s with
  | EmptyString => true
  | String c s' => negb (lineTerminator c) && singleLine s'
  end.

End Regex.

(** ** Route matching

    The router itself ([@aurelia/router]) is not among the sources; its
    configuration tests are. The definitions of this module follow the
    specification of the route definition resolver and of the router's
    walk over path segments. *)

Module Router.
Local Open Scope string_scope.
Import Regex.

(** Routing-mode configuration: ['configured-first'] or
    ['configured-only']. *)
Inductive RoutingMode : Type :=
| ConfiguredFirst
| ConfiguredOnly.

(** A component class; two classes are the same component when they
    are the same class. *)
Definition ComponentId := nat.

(** An entry of [children] in the route metadata: a
    [{path, component}] pair or a bare component reference. *)
Inductive ChildRoute : Type :=
| PathChild (path : string) (component : ComponentId)
| ComponentChild (component : ComponentId).

(** The static metadata of a component: the [name] of
    [@customElement], the [path] and [children] of [@route], and the
    [dependencies] of [@customElement]. *)
Record ComponentDef : Type := mkComponentDef {
  name : string;
  path : option string;
  children : list ChildRoute;
  dependencies : list ComponentId
}.

Definition Registry := ComponentId -> ComponentDef.

(** Modelled from the spec: the RouteNode of the data model (the
    router's route tree is not among the sources). A node has a path
    segment, a component, and a flag telling a configured route from a
    bare dependency; its children are the nodes of its component,
    built on demand by [routeNodes], so that components may refer to
    one another. *)
Record RouteNode : Type := mkRouteNode {
  segment : string;
  component : ComponentId;
  configured : bool
}.

Definition childComponent (c : ChildRoute) : ComponentId :=
  match c with
  | PathChild _ k => k
  | ComponentChild k => k
  end.

(** Modelled from the spec: the route definition resolver (not among
    the sources). A [{path, component}] child is matched by its path;
    a bare component child by the component's own [path] metadata,
    or by its name when it declares none. *)
Definition configuredNode (reg : Registry) (c : ChildRoute) : RouteNode :=
  match c with
  | PathChild p k => mkRouteNode p k true
  | ComponentChild k =>
      mkRouteNode (match path (reg k) with
                   | Some p => p
                   | None => name (reg k)
                   end) k true
  end.

Definition configuredNodes (reg : Registry) (parent : ComponentId) : list RouteNode :=
  map (configuredNode reg) (children (reg parent)).

Definition isConfigured (reg : Registry) (parent k : ComponentId) : bool :=
  existsb (fun c => Nat.eqb (childComponent c) k) (children (reg parent)).

(** Modelled from the spec: the nodes of the components that are
    declared only as dependencies (not configured); such a node
    carries the component's name. *)
Definition dependencyNodes (reg : Registry) (parent : ComponentId) : list RouteNode :=
  map (fun k => mkRouteNode (name (reg k)) k false)
      (filter (fun k => negb (isConfigured reg parent k))
              (dependencies (reg parent))).

Definition routeNodes (reg : Registry) (parent : ComponentId) : list RouteNode :=
  configuredNodes reg parent ++ dependencyNodes reg parent.

(** Modelled from the spec: a rule of the resolver (not among the
    sources). A component that declares a path other than its name is
    not reachable by its name. *)
Definition nameIsRoute (d : ComponentDef) : bool :=
  match path d with
  | Some p => String.eqb p (name d)
  | None => true
  end.

(** Modelled from the spec: the matching rules of the resolver (not
    among the sources). A configured node answers to its segment in
    both modes; a dependency node answers to its name under
    ['configured-first'] only, and never when its component declares a
    different path. *)
Definition answers (mode : RoutingMode) (reg : Registry) (s : string) (n : RouteNode) : bool :=
  if configured n
  then String.eqb (segment n) s
  else match mode with
       | ConfiguredFirst => String.eqb (segment n) s && nameIsRoute (reg (component n))
       | ConfiguredOnly => false
       end.

(** Modelled from the spec: RouteMatchError (not among the sources),
    with the unmatched segment and the path of the node it was tried
    at. *)
Record RouteMatchError : Type := mkRouteMatchError {
  unmatched : string;
  ancestorPath : string
}.

(** Modelled from the spec: the message of a RouteMatchError (not
    among the sources) has the format
    ['<segment>' ... did not match ... '<ancestor-path>']; a [Wording]
    gives the words that the format leaves out. *)
Record Wording : Type := mkWording {
  beforeDidNotMatch : string;
  afterDidNotMatch : string
}.

Definition quoted (s : string) : string := "'" ++ s ++ "'".

Definition message (wd : Wording) (e : RouteMatchError) : string :=
  quoted (unmatched e) ++ beforeDidNotMatch wd ++ "did not match"
    ++ afterDidNotMatch wd ++ quoted (ancestorPath e).

(** The left-out words are some text on one line. *)
Definition wordingOk (wd : Wording) : bool :=
  negb (String.eqb (beforeDidNotMatch wd) "") && singleLine (beforeDidNotMatch wd)
  && negb (String.eqb (afterDidNotMatch wd) "") && singleLine (afterDidNotMatch wd).

(** [/'<segment>'.+did not match.+'<ancestor>'/] *)
Definition didNotMatch (seg ancestor : string) : Regex :=
  Seq (Lit (quoted seg))
      (Seq (Plus Dot)
           (Seq (Lit "did not match")
                (Seq (Plus Dot) (Lit (quoted ancestor))))).

(** Modelled from the spec: the traversed path that an error cites,
    [root/a11/b11] (the router is not among the sources): the names of
    the components entered so far. *)
Definition friendlyPath (reg : Registry) (trail : list ComponentId) : string :=
  String.concat "/" (map (fun k => name (reg k)) trail).

Inductive Resolution : Type :=
| Resolved (trail : list ComponentId)
| Failed (e : RouteMatchError).

(** Modelled from the spec: the router's walk (not among the
    sources). One segment is consumed per level by the matching
    rules; a segment that matches nothing, or that would re-enter a
    component already on the trail, fails with a RouteMatchError
    citing the traversed path. [trail] ends with [current]. *)
Fixpoint resolve (mode : RoutingMode) (reg : Registry) (trail : list ComponentId)
         (current : ComponentId) (segments : list string) : Resolution :=
  match segments with
  | [] => Resolved trail
  | s :: rest =>
      match find (answers mode reg s) (routeNodes reg current) with
      | None => Failed (mkRouteMatchError s (friendlyPath reg trail))
      | Some n =>
          if existsb (Nat.eqb (component n)) trail
          then Failed (mkRouteMatchError s (friendlyPath reg trail))
          else resolve mode reg (trail ++ [component n]) (component n) rest
      end
  end.

(** The [/]-delimited segments of a path. *)
Fixpoint splitPath (p : string) : list string :=
  match p with
  | EmptyString => [EmptyString]
  | String c p' =>
      if Ascii.eqb c "/"
      then EmptyString :: splitPath p'
      else match splitPath p' with
           | s :: rest => String c s :: rest
           | [] => [String c EmptyString]
           end
  end.

(** Modelled from the spec: [router.load(path)] up to the end of
    resolution (not among the sources), from the root component. *)
Definition load (mode : RoutingMode) (reg : Registry) (root : ComponentId)
           (p : string) : Resolution :=
  resolve mode reg [root] root (splitPath p).

Definition rejectedWith (r : Resolution) (wd : Wording) (pattern : Regex) : bool :=
  match r with
  | Resolved _ => false
  | Failed e => test pattern (message wd e)
  end.

(** *** The component trees of the tests *)

Definition plain (n : string) (deps : list ComponentId) : ComponentDef :=
  mkComponentDef n None [] deps.

(** [Root] with [dependencies: [A01]]; [A01] has no route metadata. *)
Definition dependencyOnly (k : ComponentId) : ComponentDef :=
  match k with
  | 0%nat => plain "root" [1%nat]
  | _ => plain "a01" []
  end.

(** [Root] with [@route({ children: [A01] })]; [A01] has
    [@route({ path: 'a' })]. *)
Definition configuredWithPath (k : ComponentId) : ComponentDef :=
  match k with
  | 0%nat => mkComponentDef "root" None [ComponentChild 1%nat] []
  | _ => mkComponentDef "a01" (Some "a") [] []
  end.

(** [Root] with [dependencies: [A01]]; [A01] has
    [@route({ path: 'a' })]. *)
Definition dependencyWithPath (k : ComponentId) : ComponentDef :=
  match k with
  | 0%nat => plain "root" [1%nat]
  | _ => mkComponentDef "a01" (Some "a") [] []
  end.

(** [Root] depends on [A11], [A11] on [B11], [B11] on [C01]. *)
Definition deepDependencies (k : ComponentId) : ComponentDef :=
  match k with
  | 0%nat => plain "root" [1%nat]
  | 1%nat => plain "a11" [2%nat]
  | 2%nat => plain "b11" [3%nat]
  | _ => plain "c01" []
  end.

(** [Root] with [dependencies: [A01]] and a configured child of
    another component at the path that [A01] declares. *)
Definition pathTakenByAnother (k : ComponentId) : ComponentDef :=
  match k with
  | 0%nat => mkComponentDef "root" None [PathChild "a" 2%nat] [1%nat]
  | 1%nat => mkComponentDef "a01" (Some "a") [] []
  | _ => plain "b01" []
  end.

(** As [deepDependencies], but [B11] depends on [A11]. *)
Definition circularDependencies (k : ComponentId) : ComponentDef :=
  match k with
  | 0%nat => plain "root" [1%nat]
  | 1%nat => plain "a11" [2%nat]
  | _ => plain "b11" [1%nat]
  end.

(** [Root] with the given route children and dependencies, and [A01]
    with the given path metadata. *)
Definition rootWith (cs : list ChildRoute) (deps : list ComponentId)
           (a01Path : option string) (k : ComponentId) : ComponentDef :=
  match k with
  | 0%nat => mkComponentDef "root" None cs deps
  | _ => mkComponentDef "a01" a01Path [] []
  end.

Definition sampleWording : Wording :=
  mkWording " " " any configured route or registered component name at ".

(** The components of a tree in the order of their identifiers. *)
Definition registryOf (defs : list ComponentDef) : Registry :=
  fun k => nth k defs (plain "unknown" []).

(** [Root] with [dependencies: [A01]] and a configured child of
    another component at the name of [A01]. *)
Definition nameTakenByAnother : Registry :=
  registryOf [ mkComponentDef "root" None [PathChild "a01" 2%nat] [1%nat];
               plain "a01" []; plain "b01" [] ].

(** A root that lists itself among its dependencies. *)
Definition selfDependent : Registry :=
  registryOf [ plain "root" [0%nat] ].

(** [Root] with [dependencies: [A]], the name of [A] having a slash. *)
Definition slashInName : Registry :=
  registryOf [ plain "root" [1%nat]; plain "a/b" [] ].

(** [Root] with [@route({ children: [A01, { path: 'a01', component: B01 }] })];
    [A01] has [@route({ path: 'a' })]. *)
Definition configuredBesideAnother : Registry :=
  registryOf [ mkComponentDef "root" None
                              [ComponentChild 1%nat; PathChild "a01" 2%nat] [];
               mkComponentDef "a01" (Some "a") [] []; plain "b01" [] ].

(** [Root] with [@route({ children: [A01] })] and a dependency that
    bears the name of [A01]; [A01] has [@route({ path: 'a' })]. *)
Definition configuredBesideNamesake : Registry :=
  registryOf [ mkComponentDef "root" None [ComponentChild 1%nat] [2%nat];
               mkComponentDef "a01" (Some "a") [] []; plain "a01" [] ].

(** [Root] with [@route({ children: [A] })]; [A] is named ['a/b'] and
    has [@route({ path: 'a' })]. *)
Definition configuredSlashInName : Registry :=
  registryOf [ mkComponentDef "root" None [ComponentChild 1%nat] [];
               mkComponentDef "a/b" (Some "a") [] [] ].

(** [Root] with [dependencies: [A01, B01]]; [A01] has
    [@route({ path: 'a' })] and [B01] is named ['a']. *)
Definition pathIsNameOfAnother : Registry :=
  registryOf [ plain "root" [1%nat; 2%nat];
               mkComponentDef "a01" (Some "a") [] []; plain "a" [] ].

(** [Root] with [dependencies: [A01]]; [A01] has
    [@route({ path: 'a/b' })]. *)
Definition dependencyWithSlashPath : Registry :=
  registryOf [ plain "root" [1%nat];
               mkComponentDef "a01" (Some "a/b") [] [] ].

(** [Root] with [@route({ children: [{ path: 'b', component: B01 }] })]
    and [dependencies: [A01]]; [A01] has the given path metadata. *)
Definition dependencyBesideRoute (a01Path : option string) : Registry :=
  registryOf [ mkComponentDef "root" None [PathChild "b" 2%nat] [1%nat];
               mkComponentDef "a01" a01Path [] []; plain "b01" [] ].

(** [Root] with [@route({ children: [A01, { path: 'b', component: B01 }] })]
    and [dependencies: [B01]]; [A01] has [@route({ path: 'a' })]. *)
Definition configuredBesideRoute : Registry :=
  registryOf [ mkComponentDef "root" None
                              [ComponentChild 1%nat; PathChild "b" 2%nat] [2%nat];
               mkComponentDef "a01" (Some "a") [] []; plain "b01" [] ].

(** As [deepDependencies], but [B11] configures the path ['a11'] for
    [C01]. *)
Definition ancestorNameRouted : Registry :=
  registryOf [ plain "root" [1%nat]; plain "a11" [2%nat];
               mkComponentDef "b11" None [PathChild "a11" 3%nat] [];
               plain "c01" [] ].

End Router.

(** ** Helpers of the router configuration tests

    The functions that the test file of the router configuration
    defines beside its tests: [vp], [prepend], [prependDeferrable],
    [interleave] and [join]. *)

From Stdlib Require Import DecimalString Permutation.

Module RouterConfigSpec.
Local Open Scope string_scope.

(** [`${i}`] for an index of the loop. *)
Definition decimal (i : nat) : string := NilEmpty.string_of_uint (Nat.to_uint i).

Definition doubleQuote : string := String (ascii_of_nat 34) EmptyString.

(** [`<au-viewport name="$${i}"></au-viewport>`] *)
Definition namedViewport (i : nat) : string :=
  "<au-viewport name=" ++ doubleQuote ++ "$" ++ decimal i ++ doubleQuote
    ++ "></au-viewport>".

(** The [for] loop of [vp]: [steps] iterations are left, [i] is the
    index and [template] the text so far. *)
Fixpoint vpLoop (steps i : nat) (template : string) : string :=
  match steps with
  | O => template
  | S k => vpLoop k (S i) (template ++ namedViewport i)
  end.

(** [vp(count)], for an integer [count]: the loop runs while
    [i < count], that is [count] times, and not at all when [count] is
    negative. *)
Definition vp (count : Z) : string :=
  if (count =? 1)%Z
  then "<au-viewport></au-viewport>"
  else vpLoop (Z.to_nat count) 0 "".

Definition nonEmpty (s : string) : bool := negb (String.eqb s "").

(** [`${prefix}.${component}.${call}`] *)
Definition label (prefix component call : string) : string :=
  prefix ++ "." ++ component ++ "." ++ call.

(** What one turn of the loop [for (const call of calls)] yields. *)
Definition prependCall (prefix component call : string) : string :=
  if String.eqb call "" then "" else label prefix component call.

(** [prepend(prefix, component, ...calls)]. A generator is the list of
    the values it yields, in order: the generators of this file are
    finite and have no effect but yielding. *)
Definition prepend (prefix component : string) (calls : list string) : list string :=
  map (prependCall prefix component) calls.

(** [prependDeferrable(prefix, component, deferUntil, ...calls)]: the
    [switch] yields before the loop does. *)
Definition prependDeferrable (prefix component deferUntil : string)
           (calls : list string) : list string :=
  (if String.eqb deferUntil "none"
   then [label prefix component "canLoad"; label prefix component "load"]
   else if String.eqb deferUntil "guard-hooks"
   then [label prefix component "load"]
   else [])
  ++ map (prependCall prefix component) calls.

(** How a run of [interleave] ends: the generator is exhausted after
    these values, or the run reads a generator that is not there, or
    the model has no step left. *)
Inductive Run : Type :=
| Done (values : list string)
| TypeError
| OutOfFuel.

(** [yield value] before the rest of the run. *)
Definition yield (value : string) (rest : Run) : Run :=
  match rest with
  | Done values => Done (value :: values)
  | TypeError => TypeError
  | OutOfFuel => OutOfFuel
  end.

(** [generators[i]] *)
Definition generatorAt (generators : list (list string)) (i : Z) : option (list string) :=
  if (i <? 0)%Z then None else nth_error generators (Z.to_nat i).

(** [generators.splice(i, 1)] *)
Definition splice1 (generators : list (list string)) (i : Z) : list (list string) :=
  firstn (Z.to_nat i) generators ++ skipn (S (Z.to_nat i)) generators.

(** The generator at [i] after [gen.next()] has taken a value from it;
    the arguments of [interleave] are generators of their own, none
    passed twice. *)
Definition advance (generators : list (list string)) (i : Z) (rest : list string)
  : list (list string) :=
  firstn (Z.to_nat i) generators ++ rest :: skipn (S (Z.to_nat i)) generators.

(** The test of [while (generators.length > 0)] and the start of the
    [for] loop, [i = 0, ii = generators.length]. *)
Definition whileLoop (forLoop : list (list string) -> Z -> Z -> Run)
           (generators : list (list string)) : Run :=
  if (0 <? Z.of_nat (List.length generators))%Z
  then forLoop generators 0%Z (Z.of_nat (List.length generators))
  else Done [].

(** The [for] loop of [interleave] at the test [i < ii], one turn for
    each unit of fuel. An exhausted generator is spliced out and [i]
    and [ii] are decremented before [++i]; a value is yielded unless it
    is the empty string. When the loop is over the [while] loop goes
    on. *)
Fixpoint forLoop (fuel : nat) (generators : list (list string)) (i ii : Z) : Run :=
  match fuel with
  | O => OutOfFuel
  | S fuel' =>
      if (i <? ii)%Z
      then match generatorAt generators i with
           | None => TypeError
           | Some [] =>
               forLoop fuel' (splice1 generators i) ((i - 1) + 1)%Z (ii - 1)%Z
           | Some (value :: rest) =>
               (if nonEmpty value then yield value else fun r => r)
                 (forLoop fuel' (advance generators i rest) (i + 1)%Z ii)
           end
      else whileLoop (forLoop fuel') generators
  end.

(** [interleave(...generators)] *)
Definition interleave (fuel : nat) (generators : list (list string)) : Run :=
  whileLoop (forLoop fuel) generators.

(** The calls of [next()] that a run makes: one for each value and one
    more for each generator. *)
Definition polls (generators : list (list string)) : nat :=
  List.length (List.concat generators) + List.length generators.

(** Fuel that is enough for every run. *)
Definition enough (generators : list (list string)) : nat :=
  2 * polls generators + 1.

(** One round over the generators, as lists: the first values, the
    empty strings left out, and what is left of the generators that had
    a value. *)
Fixpoint round (generators : list (list string)) : list string * list (list string) :=
  match generators with
  | [] => ([], [])
  | g :: others =>
      let (values, left) := round others in
      match g with
      | [] => (values, left)
      | value :: rest =>
          (if nonEmpty value then value :: values else values, rest :: left)
      end
  end.

(** Round after round, as lists. *)
Fixpoint roundRobin (rounds : nat) (generators : list (list string)) : list string :=
  match rounds with
  | O => []
  | S k =>
      match generators with
      | [] => []
      | _ => fst (round generators) ++ roundRobin k (snd (round generators))
      end
  end.

(** [sub] is [whole] with some of its values left out. *)
Inductive subsequence : list string -> list string -> Prop :=
| subsequence_nil : subsequence [] []
| subsequence_skip (x : string) (sub whole : list string) :
    subsequence sub whole -> subsequence sub (x :: whole)
| subsequence_keep (x : string) (sub whole : list string) :
    subsequence sub whole -> subsequence (x :: sub) (x :: whole).

(** [x.split(sep)] for a separator of one character. *)
Fixpoint split (sep : ascii) (x : string) : list string :=
  match x with
  | EmptyString => [EmptyString]
  | String c x' =>
      if Ascii.eqb c sep
      then EmptyString :: split sep x'
      else match split sep x' with
           | s :: rest => String c s :: rest
           | [] => [String c EmptyString]
           end
  end.

(** The callback of [parts.filter]: [x && x.split('@')[0]], as a
    boolean. *)
Definition kept (x : string) : bool :=
  if nonEmpty x
  then match nth_error (split "@" x) 0 with
       | Some first => nonEmpty first
       | None => false
       end
  else false.

(** [join(sep, ...parts)] *)
Definition join (sep : string) (parts : list string) : string :=
  String.concat sep (filter kept parts).

End RouterConfigSpec.

(** ** Reading the calls of a binding *)

Module BindingEvents.
Import JS AttributeBinding.

(** A write carries the flag of its direction: [updateTarget] passes
    [flags | LifecycleFlags.updateTargetInstance] to [setValue], and
    [updateSource] passes [flags | LifecycleFlags.updateSourceExpression]
    to [assign]. *)
Definition carriesDirection {R : Runtime} (e : Event) : bool :=
  match e with
  | SetValue _ flags =>
      Z.land flags LifecycleFlags_updateTargetInstance
        =? LifecycleFlags_updateTargetInstance
  | Assign flags _ _ =>
      Z.land flags LifecycleFlags_updateSourceExpression
        =? LifecycleFlags_updateSourceExpression
  | _ => true
  end.

(** The calls that observe the source again: [sourceExpression.connect]
    and [unobserve]. *)
Definition is_reconnect (e : Event) : bool :=
  match e with
  | Connect _ _ _ => true
  | Unobserve _ => true
  | _ => false
  end.

(** [targetObserver.subscribe] and [targetObserver.unsubscribe]. *)
Definition is_subscribe (e : Event) : bool :=
  match e with Subscribe => true | _ => false end.

Definition is_unsubscribe (e : Event) : bool :=
  match e with Unsubscribe => true | _ => false end.

End BindingEvents.

(** * Properties of the attribute binding *)

Section BindingProperties.
Import JS AttributeBinding.
Local Open Scope binding_scope.
Context {R : Runtime}.

Lemma skipn_past {A : Type} (l r : list A) :
  skipn (List.length l) (l ++ r) = r.
Proof.
  induction l as [|a l IH]; [reflexivity | exact IH].
Qed.

Lemma events_since_app (w w' : World) (evs : list Event) :
  trace w' = trace w ++ evs -> events_since w w' = evs.
Proof.
  intros H. unfold events_since. rewrite H. apply skipn_past.
Qed.

Lemma events_since_refl (w : World) : events_since w w = [].
Proof.
  apply events_since_app. now rewrite app_nil_r.
Qed.

Lemma truthy_true (z : Z) : truthy z = true <-> z <> 0.
Proof.
  unfold truthy. rewrite negb_true_iff, Z.eqb_neq. tauto.
Qed.

Lemma truthy_false (z : Z) : truthy z = false <-> z = 0.
Proof.
  unfold truthy. rewrite negb_false_iff, Z.eqb_eq. tauto.
Qed.

(** Unfolds the monad and the calls on the collaborators. *)
Ltac run :=
  unfold exec, handleTargetChange, handleSourceChange, renderCallback,
    initialCallback, updateTarget, updateSource, cancelPending,
    queueRenderTask, queueMicroTask, cancel, getValue, setValue, evaluate,
    assign, when, mbind, read, emit, ret, modifyBinding, modifyObserver,
    modifyStore, modifyScheduler in *;
  cbn [fst snd binding observer store now scheduler trace] in *.

(** Computes the fields of updated records. *)
Ltac fields :=
  cbn [fst snd negb andb orb app
       binding observer store now scheduler trace
       state scope part task targetObserverSet persistentFlags mode
       targetAttribute targetProperty observerSlots version kind
       exprHasBind exprHasUnbind
       otype currentValue lastUpdate hasObserverBind hasObserverUnbind
       hasUnsubscribe idSlot
       microTasks renderTasks nextTaskId tid body
       set_state set_scope set_part set_task set_targetObserverSet
       set_persistentFlags set_version set_currentValue set_idSlot] in *.

(** Splits on the conditions of the method, in the order of the
    source. *)
Ltac cases :=
  repeat (fields;
          match goal with
          | |- context [if ?c then _ else _] => destruct c eqn:?
          | |- context [match ?c with Some _ => _ | None => _ end] =>
              destruct c eqn:?
          end);
  fields.

(** Brings [events_since w w'] to the events appended to [trace w]. *)
Ltac since :=
  erewrite events_since_app
    by (cbn [trace]; rewrite <- ?app_assoc; cbn [app]; reflexivity).

(** C3. A bound binding does not propagate a value that is not new.
    In the target-update branch, when the value the method computes
    (the expression evaluated again, or the notified [newValue] for a
    lone [AccessScope]) is [===] to [targetObserver.getValue()],
    [setValue] is not called and no task is queued: observer and
    scheduler are as before. In the source-update branch, when the
    incoming value is [===] to what the expression evaluates to,
    [assign] is not called and the scope keeps its value. *)
Theorem handleChange_equal_value_not_propagated
    (w : World) (newValue previousValue : Value) (flags : Z) :
  isBound w = true ->
  let f := adjustFlags (binding w) flags in
  (truthy (Z.land f LifecycleFlags_updateTargetInstance) = true ->
   strict_eq (latestValue w newValue) (currentValue (observer w)) = true ->
   exists w',
     handleChange newValue previousValue flags w = Returned w' /\
     existsb is_target_write (events_since w w') = false /\
     existsb is_task_queued (events_since w w') = false /\
     observer w' = observer w /\
     scheduler w' = scheduler w /\
     task (binding w') = task (binding w))
  /\
  (truthy (Z.land f LifecycleFlags_updateTargetInstance) = false ->
   truthy (Z.land f LifecycleFlags_updateSourceExpression) = true ->
   strict_eq newValue (store w (scope (binding w))) = true ->
   exists w',
     handleChange newValue previousValue flags w = Returned w' /\
     existsb is_source_write (events_since w w') = false /\
     store w' = store w).
Proof.
  intros Hb f. split.
  - intros Ht Heq. unfold handleChange. rewrite Hb. cbn [negb]. fold f.
    rewrite Ht. eexists. split; [reflexivity|].
    unfold latestValue in Heq. run.
    destruct (reevaluates (binding w)); cbn [fst snd binding observer store trace] in *;
      unfold strict_neq; rewrite Heq; cbn [negb];
      destruct (Z.land (mode (binding w)) BindingMode_oneTime =? 0);
      cbn [fst snd binding observer scheduler trace task set_version];
      since; cbn; auto.
  - intros Ht Hs Heq. unfold handleChange. rewrite Hb. cbn [negb]. fold f.
    rewrite Ht, Hs. eexists. split; [reflexivity|].
    run. unfold strict_neq. rewrite Heq. cbn [negb fst snd store trace].
    since. cbn. auto.
Qed.

(** C4. On a bound binding [handleChange] throws [Reporter.error(15,
    flags)] exactly when, after [flags |= persistentFlags] and the
    [fromView] adjustment, neither [updateTargetInstance] nor
    [updateSourceExpression] is set; otherwise it returns. *)
Theorem handleChange_throws_iff_no_direction
    (w : World) (newValue previousValue : Value) (flags : Z) :
  isBound w = true ->
  let f := adjustFlags (binding w) flags in
  (handleChange newValue previousValue flags w = Thrown (ReporterError 15 f) w <->
   Z.land f LifecycleFlags_updateTargetInstance = 0 /\
   Z.land f LifecycleFlags_updateSourceExpression = 0)
  /\
  ((exists e w', handleChange newValue previousValue flags w = Thrown e w') <->
   Z.land f LifecycleFlags_updateTargetInstance = 0 /\
   Z.land f LifecycleFlags_updateSourceExpression = 0)
  /\
  (Z.land f LifecycleFlags_updateTargetInstance <> 0 \/
   Z.land f LifecycleFlags_updateSourceExpression <> 0 ->
   exists w', handleChange newValue previousValue flags w = Returned w').
Proof.
  intros Hb f. unfold handleChange. rewrite Hb. cbn [negb]. fold f.
  destruct (truthy (Z.land f LifecycleFlags_updateTargetInstance)) eqn:Ht;
    [apply truthy_true in Ht | apply truthy_false in Ht];
    (destruct (truthy (Z.land f LifecycleFlags_updateSourceExpression)) eqn:Hs;
     [apply truthy_true in Hs | apply truthy_false in Hs]).
  all: repeat split; intros; try discriminate; try tauto; eauto.
  all: try match goal with
           | H : exists _ _, _ |- _ => destruct H as (? & ? & H); discriminate
           end.
  all: try match goal with
           | H : _ \/ _ |- _ => destruct H; contradiction
           end.
Qed.

(** *** [$unbind] *)

Lemma land_cleared (x b u : Z) :
  Z.land (Z.land x (Z.lnot (Z.lor b u))) b = 0.
Proof.
  apply Z.bits_inj'. intros n Hn.
  rewrite !Z.land_spec, Z.lnot_spec, Z.lor_spec, Z.bits_0 by assumption.
  destruct (Z.testbit x n), (Z.testbit b n), (Z.testbit u n); reflexivity.
Qed.

(** What a full [$unbind] does to a bound binding. *)
Lemma unbind_bound (w : World) (flags : Z) :
  isBound w = true ->
  let u := exec (dollar_unbind flags) w in
  state (binding u) =
    Z.land (Z.lor (state (binding w)) State_isUnbinding)
           (Z.lnot (Z.lor State_isBound State_isUnbinding)) /\
  isBound u = false /\
  scope (binding u) = None /\
  persistentFlags (binding u) = LifecycleFlags_none /\
  events_since w u = unbindEvents w flags.
Proof.
  intros Hb u. subst u. unfold dollar_unbind, unbindEvents. run.
  rewrite Hb. cases.
  all: repeat split; try reflexivity.
  all: try (unfold isBound; fields; apply truthy_false, land_cleared).
  all: since; reflexivity.
Qed.

(** [$unbind] leaves the scope values, the tasks and the observer's
    type and value alone, and does not write the target. *)
Lemma unbind_frame (w : World) (flags : Z) :
  let u := exec (dollar_unbind flags) w in
  store u = store w /\ scheduler u = scheduler w /\ now u = now w /\
  task (binding u) = task (binding w) /\
  mode (binding u) = mode (binding w) /\
  targetObserverSet (binding u) = targetObserverSet (binding w) /\
  targetProperty (binding u) = targetProperty (binding w) /\
  targetAttribute (binding u) = targetAttribute (binding w) /\
  exprHasBind (binding u) = exprHasBind (binding w) /\
  otype (observer u) = otype (observer w) /\
  hasObserverBind (observer u) = hasObserverBind (observer w) /\
  exists evs, trace u = trace w ++ evs /\
              filter is_target_write evs = [] /\
              filter is_microtask_queued evs = [].
Proof.
  intros u. subst u. unfold dollar_unbind. run. cases.
  all: repeat split; try reflexivity.
  all: eexists; split;
    [ rewrite <- ?app_assoc; cbn [app]; try reflexivity;
      symmetry; apply app_nil_r
    | split; reflexivity ].
Qed.

(** *** Unbound bindings *)

(** [$unbind] leaves [isBound] clear, whatever the binding was. *)
Lemma unbind_not_bound (w : World) (flags : Z) :
  isBound (exec (dollar_unbind flags) w) = false.
Proof.
  destruct (isBound w) eqn:Hb.
  - now destruct (unbind_bound w flags Hb) as (_ & H & _).
  - unfold dollar_unbind, exec, mbind, read, ret. now rewrite Hb.
Qed.

(** C10, as amended. While [isBound] is not set (as [$unbind] leaves
    it), [handleChange] returns at once, without evaluating or
    propagating: the world is as it was. A render-tick task that runs
    on a binding whose [isBound] is not set does not call
    [updateTarget]: running it changes nothing. *)
Theorem unbound_binding_ignores_changes_and_render_tasks (w : World) :
  isBound w = false ->
  (forall newValue previousValue flags,
      handleChange newValue previousValue flags w = Returned w) /\
  (forall updateTime newValue flags,
      runBody (RenderUpdate updateTime newValue flags) w = (tt, w)) /\
  (forall id updateTime newValue flags rest,
      renderTasks (scheduler w)
        = mkTask id (RenderUpdate updateTime newValue flags) :: rest ->
      events_since w (exec runRenderTask w) = []).
Proof.
  intros Hb.
  assert (Hz : Z.land (state (binding w)) State_isBound = 0)
    by now apply truthy_false.
  split; [|split].
  - intros. unfold handleChange. now rewrite Hb.
  - intros. cbn [runBody]. run. rewrite Hz.
    now rewrite andb_false_r.
  - intros id t v f rest Hq. unfold runRenderTask. run. rewrite Hq.
    fields. cbn [runBody]. run. fields. rewrite Hz, andb_false_r.
    fields. apply events_since_app. fields. now rewrite app_nil_r.
Qed.

(** *** The pending task of a binding *)

Lemma dropTask_same_id (id : TaskId) (q : list Task) :
  (forall t, In t q -> Some id = Some (tid t)) -> dropTask id q = [].
Proof.
  induction q as [|t q IH]; intros H; [reflexivity|].
  cbn. assert (Ht : Some id = Some (tid t)) by (apply H; now left).
  injection Ht as ->. rewrite Nat.eqb_refl. cbn.
  apply IH. intros t' Hin. apply H. now right.
Qed.

Lemma owned_cancelled (w : World) (id : TaskId) :
  owns_pending w -> task (binding w) = Some id ->
  dropTask id (microTasks (scheduler w)) = [] /\
  dropTask id (renderTasks (scheduler w)) = [].
Proof.
  intros [Hown _] Ht. unfold pending in Hown. rewrite Ht in Hown.
  split; apply dropTask_same_id; intros t Hin; apply Hown, in_or_app; auto.
Qed.

Lemma owned_none (w : World) :
  owns_pending w -> task (binding w) = None ->
  microTasks (scheduler w) = [] /\ renderTasks (scheduler w) = [].
Proof.
  intros [Hown _] Ht. unfold pending in Hown. rewrite Ht in Hown.
  destruct (microTasks (scheduler w)) as [|t q].
  - destruct (renderTasks (scheduler w)) as [|t q]; [auto|].
    specialize (Hown t (or_introl eq_refl)). discriminate.
  - specialize (Hown t (or_introl eq_refl)). discriminate.
Qed.

(** The invariant only reads the queues and the [task] field. *)
Lemma owns_pending_frame (w w' : World) :
  scheduler w' = scheduler w -> task (binding w') = task (binding w) ->
  owns_pending w -> owns_pending w'.
Proof.
  unfold owns_pending, pending. intros -> ->. auto.
Qed.

Lemma owns_single (b : Binding) (o : Observer) (st : option ScopeRef -> Value)
      (t : Z) (n : TaskId) (tr : list Event) (k : Task) :
  task b = Some (tid k) ->
  (owns_pending (mkWorld b o st t (mkScheduler [k] [] n) tr)) /\
  (owns_pending (mkWorld b o st t (mkScheduler [] [k] n) tr)).
Proof.
  intros Hk. unfold owns_pending, pending. cbn.
  repeat split; try lia; intros t' [<-|[]]; assumption.
Qed.

(** Closes a goal [owns_pending w'] after [cases]: either the queues
    and the [task] field are those of a world that has the invariant,
    or the pending task was cancelled and a single new one queued. *)
Ltac owned H :=
  first
    [ exact H
    | apply (owns_pending_frame _ _ eq_refl eq_refl H)
    | match goal with
      | E : task (binding ?w) = Some ?id |- _ =>
          destruct (owned_cancelled w id H E) as [-> ->]
      | E : task (binding ?w) = None |- _ =>
          destruct (owned_none w H E) as [-> ->]
      end;
      cbn [app]; apply owns_single; reflexivity ].

Lemma handleChange_owns_pending
      (w w' : World) (newValue previousValue : Value) (flags : Z) :
  handleChange newValue previousValue flags w = Returned w' ->
  owns_pending w -> owns_pending w'.
Proof.
  unfold handleChange. intros Hret H.
  destruct (isBound w); cbn [negb] in Hret; [|now inversion Hret; subst].
  destruct (truthy _) in Hret; [|destruct (truthy _) in Hret];
    inversion Hret; subst; clear Hret; run; cases; owned H.
Qed.

Lemma unbind_owns_pending (w : World) (flags : Z) :
  owns_pending w -> owns_pending (exec (dollar_unbind flags) w).
Proof.
  destruct (unbind_frame w flags) as (_ & Hs & _ & Ht & _).
  now apply owns_pending_frame.
Qed.

Lemma bindBody_owns_pending (w : World) (flags : Z) (sc : ScopeRef) (p : option string) :
  owns_pending w -> owns_pending (exec (bindBody flags sc p) w).
Proof.
  intros H. unfold bindBody. run. cases; owned H.
Qed.

Lemma bind_owns_pending (w : World) (flags : Z) (sc : ScopeRef) (p : option string) :
  owns_pending w -> owns_pending (exec (dollar_bind flags sc p) w).
Proof.
  intros H. unfold dollar_bind, exec, mbind, read, when, ret.
  destruct (isBound w && scope_eqb (scope (binding w)) (Some sc)); [exact H|].
  destruct (isBound w).
  - pose proof (unbind_owns_pending w (Z.lor flags LifecycleFlags_fromBind) H) as Hu.
    unfold exec in Hu.
    destruct (dollar_unbind (Z.lor flags LifecycleFlags_fromBind) w) as [[] u].
    now apply bindBody_owns_pending.
  - now apply bindBody_owns_pending.
Qed.

Lemma runBody_frame (b : TaskBody) (w : World) :
  scheduler (exec (runBody b) w) = scheduler w /\
  binding (exec (runBody b) w) = binding w.
Proof.
  destruct b; cbn [runBody]; run; cases; auto.
Qed.

Lemma owns_pending_dequeued (w : World) (q1 q2 : list Task) :
  owns_pending w ->
  (forall t, In t (q1 ++ q2) -> In t (pending w)) ->
  (List.length (q1 ++ q2) <= List.length (pending w))%nat ->
  owns_pending (mkWorld (binding w) (observer w) (store w) (now w)
                        (mkScheduler q1 q2 (nextTaskId (scheduler w)))
                        (trace w)).
Proof.
  intros [Hown Hlen] Hin Hle. unfold owns_pending, pending. cbn.
  split; [auto | lia].
Qed.

Lemma tick_owns_pending (w : World) :
  owns_pending w ->
  owns_pending (exec runMicroTask w) /\ owns_pending (exec runRenderTask w).
Proof.
  intros H. split.
  - unfold runMicroTask, exec, mbind, read, ret, modifyScheduler. cbn [fst snd].
    destruct (microTasks (scheduler w)) as [|t rest] eqn:Hq; [exact H|].
    cbn [fst snd].
    match goal with |- owns_pending (snd (runBody ?b ?u)) =>
      destruct (runBody_frame b u) as [Hs Hb]; unfold exec in Hs, Hb;
      apply (owns_pending_frame u); [exact Hs | now rewrite Hb |]
    end.
    apply owns_pending_dequeued; [exact H | |];
      unfold pending; rewrite Hq; cbn; [auto | lia].
  - unfold runRenderTask, exec, mbind, read, ret, modifyScheduler. cbn [fst snd].
    destruct (renderTasks (scheduler w)) as [|t rest] eqn:Hq; [exact H|].
    cbn [fst snd].
    match goal with |- owns_pending (snd (runBody ?b ?u)) =>
      destruct (runBody_frame b u) as [Hs Hb]; unfold exec in Hs, Hb;
      apply (owns_pending_frame u); [exact Hs | now rewrite Hb |]
    end.
    apply owns_pending_dequeued; [exact H | |];
      unfold pending; rewrite Hq.
    + intros t' Hin. apply in_app_or in Hin. apply in_or_app.
      destruct Hin; [left | right; right]; assumption.
    + rewrite !length_app. cbn. lia.
Qed.

(** Every step keeps the binding the owner of at most one pending
    task. *)
Lemma step_owns_pending (w w' : World) :
  step w w' -> owns_pending w -> owns_pending w'.
Proof.
  intros Hstep H. destruct Hstep.
  - eapply handleChange_owns_pending; eassumption.
  - now apply bind_owns_pending.
  - now apply unbind_owns_pending.
  - unfold connect. run. cases; owned H.
  - now apply tick_owns_pending.
  - now apply tick_owns_pending.
  - exact (owns_pending_frame w _ eq_refl eq_refl H).
Qed.

Lemma reachable_owns_pending (w0 w : World) :
  owns_pending w0 -> reachable w0 w -> owns_pending w.
Proof.
  intros H0 Hr. induction Hr as [|w w' _ IH Hs]; [exact H0|].
  eapply step_owns_pending; eauto.
Qed.

Lemma newWorld_owns_pending (b : Binding) (o : Observer)
      (st : option ScopeRef -> Value) (t : Z) :
  owns_pending (newWorld b o st t).
Proof.
  unfold owns_pending, newWorld, pending. cbn. split; [tauto | lia].
Qed.

(** *** Layout observers *)

(** What running the render-tick callback does, in any world. *)
Lemma renderCallback_guard (w2 : World) (updateTime : Z) (v : Value) (f : Z) :
  let w3 := exec (runBody (RenderUpdate updateTime v f)) w2 in
  (lastUpdate (observer w2) < updateTime /\
   0 < Z.land (state (binding w2)) State_isBound ->
   events_since w2 w3 =
     [SetValue v (Z.lor (Z.lor f (persistentFlags (binding w2)))
                        LifecycleFlags_updateTargetInstance)]) /\
  (~ (lastUpdate (observer w2) < updateTime /\ isBound w2 = true) ->
   w3 = w2).
Proof.
  cbn [runBody]. run. split.
  - intros [Hlu Hb].
    apply Z.ltb_lt in Hlu. apply Z.ltb_lt in Hb. rewrite Hlu, Hb.
    fields. since. reflexivity.
  - intros Hn.
    destruct (lastUpdate (observer w2) <? updateTime) eqn:Hlu;
      [|reflexivity].
    destruct (0 <? Z.land (state (binding w2)) State_isBound) eqn:Hb;
      [|reflexivity].
    exfalso. apply Hn. apply Z.ltb_lt in Hlu. apply Z.ltb_lt in Hb.
    split; [assumption|]. apply truthy_true. lia.
Qed.

(** C7, as amended. On a bound binding whose target observer has the
    [Layout] bit, in any world that a newly constructed binding can
    reach, a notification in the target direction whose latest value
    is not [===] to the value the target observer holds does not
    write the target in the call. It cancels the task the binding had
    pending, so that the one render-tick task it queues, stamped with
    [Date.now()] and kept in [task], is the only pending task. When
    that task runs it writes the target if its stamp is greater than
    the observer's [lastUpdate] and [isBound] is still set, and does
    nothing otherwise. (A notification whose latest value the target
    holds already writes and queues nothing; what becomes of a task
    that is pending then is left open here.) *)
Theorem layout_change_deferred_to_single_render_task
    (b0 : Binding) (o0 : Observer) (st0 : option ScopeRef -> Value) (t0 : Z)
    (w : World) (newValue previousValue : Value) (flags : Z) :
  reachable (newWorld b0 o0 st0 t0) w ->
  isBound w = true ->
  let f := adjustFlags (binding w) flags in
  let v := latestValue w newValue in
  let id := nextTaskId (scheduler w) in
  truthy (Z.land f LifecycleFlags_updateTargetInstance) = true ->
  0 < Z.land (otype (observer w)) ObserverType_Layout ->
  strict_neq v (currentValue (observer w)) = true ->
  exists w',
    handleChange newValue previousValue flags w = Returned w' /\
    existsb is_target_write (events_since w w') = false /\
    observer w' = observer w /\
    (forall old, task (binding w) = Some old ->
                 In (CancelTask old) (events_since w w')) /\
    In (QueueRenderTask id) (events_since w w') /\
    microTasks (scheduler w') = [] /\
    renderTasks (scheduler w') = [mkTask id (RenderUpdate (now w) v f)] /\
    task (binding w') = Some id /\
    owns_pending w' /\
    forall w2 : World,
      let w3 := exec (runBody (RenderUpdate (now w) v f)) w2 in
      (lastUpdate (observer w2) < now w /\
       0 < Z.land (state (binding w2)) State_isBound ->
       events_since w2 w3 =
         [SetValue v (Z.lor (Z.lor f (persistentFlags (binding w2)))
                            LifecycleFlags_updateTargetInstance)]) /\
      (~ (lastUpdate (observer w2) < now w /\ isBound w2 = true) ->
       w3 = w2).
Proof.
  intros Hreach Hb f v id Ht Hl Hneq.
  pose proof (reachable_owns_pending _ _ (newWorld_owns_pending b0 o0 st0 t0) Hreach)
    as Hown.
  assert (Heq : handleChange newValue previousValue flags w
                = Returned (exec (handleTargetChange newValue f) w)).
  { unfold handleChange. rewrite Hb. cbn [negb]. fold f. now rewrite Ht. }
  pose proof (handleChange_owns_pending _ _ _ _ _ Heq Hown) as Hinv.
  eexists. split; [exact Heq|]. clear Heq.
  apply Z.ltb_lt in Hl.
  repeat match goal with |- _ /\ _ => split end;
    try exact Hinv; try (intros w2; apply renderCallback_guard).
  all: subst v id; unfold latestValue in *; clear Hinv; run.
  all: destruct (reevaluates (binding w)); fields; rewrite Hneq, Hl; fields.
  all: destruct (task (binding w)) as [old|] eqn:Hold;
    [ destruct (owned_cancelled w old Hown Hold) as [Hm Hr]
    | destruct (owned_none w Hown Hold) as [Hm Hr] ]; fields.
  all: destruct (Z.land (mode (binding w)) BindingMode_oneTime =? 0);
    fields; rewrite ?Hm, ?Hr; fields; try reflexivity.
  all: try (intros ? [=<-]); try (intros ? [=]).
  all: since; cbn; auto 10.
Qed.

(** *** The initial push of [$bind] *)

(** What running the microtask callback does, in any world. *)
Lemma initialCallback_events
      (w : World) (flags : Z) (sc : ScopeRef) (p : option string) :
  events_since w (exec (runBody (InitialUpdate flags sc p)) w) =
    [Evaluate flags (Some sc) p;
     SetValue (store w (Some sc))
              (Z.lor (Z.lor flags (persistentFlags (binding w)))
                     LifecycleFlags_updateTargetInstance)].
Proof.
  cbn [runBody]. run. since. reflexivity.
Qed.

(** [bindBody] on a [toView] or [oneTime] binding, from any world. *)
Lemma bindBody_initial_push
      (u : World) (flags : Z) (sc : ScopeRef) (p : option string) :
  truthy (Z.land (mode (binding u))
                 (Z.lor BindingMode_toView BindingMode_oneTime)) = true ->
  let w' := exec (bindBody flags sc p) u in
  let v := store u (Some sc) in
  let f' := Z.lor (Z.lor flags (Z.land flags LifecycleFlags_persistentBindingFlags))
                  LifecycleFlags_updateTargetInstance in
  let node := truthy (Z.land (otype (boundObserver u flags)) ObserverType_Node) in
  let id := nextTaskId (scheduler u) in
  exists evs,
    trace w' = trace u ++ evs /\
    filter is_target_write evs = [SetValue v f'] /\
    filter is_microtask_queued evs = (if node then [QueueMicroTask id] else []) /\
    currentValue (observer w') = v /\
    store w' = store u /\
    persistentFlags (binding w')
      = Z.land flags LifecycleFlags_persistentBindingFlags /\
    (if node
     then In (mkTask id (InitialUpdate flags sc p)) (microTasks (scheduler w')) /\
          task (binding w') = Some id
     else scheduler w' = scheduler u /\ task (binding w') = task (binding u)).
Proof.
  intros Hm w' v f' node id. subst w' v f' node id.
  unfold bindBody, boundObserver. run. fields.
  destruct (exprHasBind (binding u)); fields.
  all: destruct (targetObserverSet (binding u)); fields.
  all: match goal with
       | |- context [hasObserverBind ?o] => destruct (hasObserverBind o)
       end; fields.
  all: rewrite Hm; fields.
  all: match goal with
       | |- context [truthy (Z.land (otype ?o) ObserverType_Node)] =>
           destruct (truthy (Z.land (otype o) ObserverType_Node))
       end; fields.
  all: try (destruct (task (binding u)) eqn:Etask; fields).
  all: destruct (truthy (Z.land (mode (binding u)) BindingMode_toView)); fields.
  all: destruct (truthy (Z.land (mode (binding u)) BindingMode_fromView)); fields.
  all: eexists; split;
    [ rewrite <- ?app_assoc; cbn [app]; reflexivity | ].
  all: cbn [filter is_target_write is_microtask_queued];
    repeat split; try reflexivity; try assumption.
  all: apply in_or_app; right; now left.
Qed.

(** C8. A [$bind] that binds (it is not the repeated call with the
    scope the binding is already bound to) with [toView] or [oneTime]
    in the mode calls [updateTarget] with the evaluated source
    expression once, in the call itself: the observer holds that
    value when [$bind] returns. A microtask is queued exactly when the
    observer's type has the [Node] bit; run on the world [$bind]
    leaves, it evaluates the expression in the same scope and writes
    the same value, with the same flags, to the same observer. *)
Theorem bind_pushes_eagerly_and_defers_for_node_observer
    (w : World) (flags : Z) (sc : ScopeRef) (p : option string) :
  isBound w && scope_eqb (scope (binding w)) (Some sc) = false ->
  truthy (Z.land (mode (binding w))
                 (Z.lor BindingMode_toView BindingMode_oneTime)) = true ->
  let w' := exec (dollar_bind flags sc p) w in
  let v := store w (Some sc) in
  let f' := Z.lor (Z.lor flags (Z.land flags LifecycleFlags_persistentBindingFlags))
                  LifecycleFlags_updateTargetInstance in
  let node := truthy (Z.land (otype (boundObserver w flags)) ObserverType_Node) in
  let id := nextTaskId (scheduler w) in
  filter is_target_write (events_since w w') = [SetValue v f'] /\
  currentValue (observer w') = v /\
  existsb is_microtask_queued (events_since w w') = node /\
  (node = true ->
   In (mkTask id (InitialUpdate flags sc p)) (microTasks (scheduler w')) /\
   task (binding w') = Some id /\
   events_since w' (exec (runBody (InitialUpdate flags sc p)) w')
     = [Evaluate flags (Some sc) p; SetValue v f']) /\
  (node = false ->
   scheduler w' = scheduler w /\ task (binding w') = task (binding w)).
Proof.
  intros Hcall Hm w' v f' node id.
  set (u := if isBound w
            then exec (dollar_unbind (Z.lor flags LifecycleFlags_fromBind)) w
            else w).
  assert (Hw' : w' = exec (bindBody flags sc p) u).
  { subst w' u. unfold dollar_bind, exec, mbind, read, when, ret.
    rewrite Hcall. destruct (isBound w); [|reflexivity].
    destruct (dollar_unbind (Z.lor flags LifecycleFlags_fromBind) w).
    reflexivity. }
  assert (Hu : store u = store w /\ scheduler u = scheduler w /\
               task (binding u) = task (binding w) /\
               mode (binding u) = mode (binding w) /\
               otype (boundObserver u flags) = otype (boundObserver w flags) /\
               exists evs, trace u = trace w ++ evs /\
                           filter is_target_write evs = [] /\
                           filter is_microtask_queued evs = []).
  { subst u. destruct (isBound w).
    - destruct (unbind_frame w (Z.lor flags LifecycleFlags_fromBind))
        as (H1 & H2 & _ & H3 & H4 & H5 & H6 & H7 & _ & H8 & _ & H9).
      repeat split; try assumption.
      unfold boundObserver. rewrite H5, H6, H7.
      now destruct (targetObserverSet (binding w)).
    - repeat split. exists []. now rewrite app_nil_r. }
  destruct Hu as (Hst & Hsch & Htask & Hmode & Hty & evs0 & Htr0 & Hw0 & Hq0).
  rewrite <- Hmode in Hm.
  destruct (bindBody_initial_push u flags sc p Hm)
    as (evs & Htr & Hwr & Hq & Hcur & Hst' & Hpf & Hnode).
  rewrite <- Hw' in *. rewrite Hst, Hty, Hsch in *.
  fold node in Hq, Hnode. fold id in Hq, Hnode. fold v in Hwr, Hcur. fold f' in Hwr.
  assert (Hev : events_since w w' = evs0 ++ evs).
  { apply events_since_app. rewrite Htr, Htr0. now rewrite app_assoc. }
  rewrite Hev.
  split; [now rewrite filter_app, Hw0, Hwr|].
  split; [exact Hcur|].
  split.
  { assert (Hex : forall l, existsb is_microtask_queued l
                            = negb (Nat.eqb (List.length (filter is_microtask_queued l)) 0)).
    { induction l as [|e l IH]; [reflexivity|].
      cbn. destruct (is_microtask_queued e); [reflexivity | exact IH]. }
    rewrite Hex, filter_app, Hq0, Hq. now destruct node. }
  split.
  - intros Hn. rewrite Hn in Hnode. destruct Hnode as [Hin Ht].
    repeat split; try assumption.
    rewrite initialCallback_events, Hst', Hpf. reflexivity.
  - intros Hn. rewrite Hn in Hnode. destruct Hnode as [Hs Ht].
    split; [exact Hs | now rewrite Ht].
Qed.

(** *** More on [$unbind] and [$bind] *)

Import BindingEvents.

Lemma land_lor_absorb (x m : Z) : Z.land (Z.lor x m) m = m.
Proof.
  apply Z.bits_inj'. intros n Hn. rewrite Z.land_spec, Z.lor_spec.
  destruct (Z.testbit x n), (Z.testbit m n); reflexivity.
Qed.

Lemma land_lnot_cleared (x m : Z) : Z.land (Z.land x (Z.lnot m)) m = 0.
Proof.
  apply Z.bits_inj'. intros n Hn.
  rewrite !Z.land_spec, Z.lnot_spec, Z.bits_0 by assumption.
  destruct (Z.testbit x n), (Z.testbit m n); reflexivity.
Qed.

Lemma carriesDirection_SetValue (v : Value) (x : Z) :
  carriesDirection (SetValue v (Z.lor x LifecycleFlags_updateTargetInstance)) = true.
Proof.
  cbn. rewrite land_lor_absorb. apply Z.eqb_refl.
Qed.

Lemma carriesDirection_Assign (v : Value) (x : Z) (sc : option ScopeRef) :
  carriesDirection (Assign (Z.lor x LifecycleFlags_updateSourceExpression) sc v) = true.
Proof.
  cbn. rewrite land_lor_absorb. apply Z.eqb_refl.
Qed.

(** As [fields] and [cases], on the goal alone. *)
Ltac goal_fields :=
  cbn [fst snd negb andb orb app
       binding observer store now scheduler trace
       state scope part task targetObserverSet persistentFlags mode
       targetAttribute targetProperty observerSlots version kind
       exprHasBind exprHasUnbind
       otype currentValue lastUpdate hasObserverBind hasObserverUnbind
       hasUnsubscribe idSlot
       microTasks renderTasks nextTaskId tid body
       set_state set_scope set_part set_task set_targetObserverSet
       set_persistentFlags set_version set_currentValue set_idSlot].

Ltac goal_cases :=
  repeat (goal_fields;
          match goal with
          | |- context [if ?c then _ else _] => destruct c eqn:?
          | |- context [match ?c with Some _ => _ | None => _ end] =>
              destruct c eqn:?
          end);
  goal_fields.

(** Closes a goal on the calls of the longer trace, given the same
    fact [H] on the shorter one. *)
Ltac directed H :=
  fields; rewrite ?forallb_app; rewrite ?H;
  cbn [forallb andb];
  rewrite ?carriesDirection_SetValue, ?carriesDirection_Assign;
  reflexivity.

(** X9. [$unbind] on a binding that is not bound does nothing, so a
    second [$unbind] after a first one does nothing either, whatever
    its flags. *)
Theorem unbind_twice_is_unbind_once (w : World) (flags flags' : Z) :
  dollar_unbind flags' (exec (dollar_unbind flags) w)
  = (tt, exec (dollar_unbind flags) w) /\
  (isBound w = false -> dollar_unbind flags w = (tt, w)).
Proof.
  assert (H : forall u f, isBound u = false -> dollar_unbind f u = (tt, u)).
  { intros u f Hu. unfold dollar_unbind, mbind, read, ret. now rewrite Hu. }
  split; [apply H, unbind_not_bound | apply H].
Qed.

(** X10. [$unbind] leaves the scheduler alone: it cancels no task and
    keeps [task], so that what was pending is still pending after it.
    It writes neither the target nor the source. *)
Theorem unbind_keeps_pending_tasks (w : World) (flags : Z) :
  let u := exec (dollar_unbind flags) w in
  scheduler u = scheduler w /\
  task (binding u) = task (binding w) /\
  currentValue (observer u) = currentValue (observer w) /\
  store u = store w /\
  existsb is_target_write (events_since w u) = false /\
  existsb is_source_write (events_since w u) = false /\
  existsb (fun e => match e with CancelTask _ => true | _ => false end)
          (events_since w u) = false.
Proof.
  intros u. subst u. unfold dollar_unbind. run. cases.
  all: repeat split; try reflexivity.
  all: try (since; reflexivity).
  all: rewrite events_since_refl; reflexivity.
Qed.

(** What [bindBody] leaves in the binding, and that its writes carry
    their direction: whatever follows from these facts holds of the
    world it leaves. *)
Lemma bindBody_effect_of (u : World) (flags : Z) (sc : ScopeRef) (p : option string)
      (Q : World -> Prop) :
  (forall w' : World,
      state (binding w')
      = Z.land (Z.lor (Z.lor (state (binding u)) State_isBinding) State_isBound)
               (Z.lnot State_isBinding) ->
      scope (binding w') = Some sc ->
      part (binding w') = p ->
      persistentFlags (binding w')
      = Z.land flags LifecycleFlags_persistentBindingFlags ->
      targetObserverSet (binding w') = true ->
      (forallb carriesDirection (trace u) = true ->
       forallb carriesDirection (trace w') = true) ->
      Q w') ->
  Q (exec (bindBody flags sc p) u).
Proof.
  intros HQ. unfold bindBody. run. goal_cases.
  all: apply HQ; try reflexivity.
  all: try (apply negb_false_iff; assumption).
  all: intros H; directed H.
Qed.

Lemma bindBody_effect (u : World) (flags : Z) (sc : ScopeRef) (p : option string) :
  let w' := exec (bindBody flags sc p) u in
  state (binding w')
  = Z.land (Z.lor (Z.lor (state (binding u)) State_isBinding) State_isBound)
           (Z.lnot State_isBinding) /\
  scope (binding w') = Some sc /\
  part (binding w') = p /\
  persistentFlags (binding w')
  = Z.land flags LifecycleFlags_persistentBindingFlags /\
  targetObserverSet (binding w') = true /\
  (forallb carriesDirection (trace u) = true ->
   forallb carriesDirection (trace w') = true).
Proof.
  apply (bindBody_effect_of u flags sc p
           (fun w' =>
              state (binding w')
              = Z.land (Z.lor (Z.lor (state (binding u)) State_isBinding)
                              State_isBound)
                       (Z.lnot State_isBinding) /\
              scope (binding w') = Some sc /\
              part (binding w') = p /\
              persistentFlags (binding w')
              = Z.land flags LifecycleFlags_persistentBindingFlags /\
              targetObserverSet (binding w') = true /\
              (forallb carriesDirection (trace u) = true ->
               forallb carriesDirection (trace w') = true))).
  intros w' H1 H2 H3 H4 H5 H6.
  exact (conj H1 (conj H2 (conj H3 (conj H4 (conj H5 H6))))).
Qed.

Lemma isBound_after_bindBody (s : Z) :
  Z.land (Z.land (Z.lor (Z.lor s State_isBinding) State_isBound)
                 (Z.lnot State_isBinding)) State_isBound
  = Z.land State_isBound (Z.lnot State_isBinding).
Proof.
  apply Z.bits_inj'. intros n Hn.
  rewrite !Z.land_spec, !Z.lor_spec, Z.lnot_spec by assumption.
  destruct (Z.testbit s n), (Z.testbit State_isBinding n),
    (Z.testbit State_isBound n); reflexivity.
Qed.

(** [$bind] is the early return, or [bindBody] after [$unbind] when
    the binding is bound. *)
Lemma bind_cases (w : World) (flags : Z) (sc : ScopeRef) (p : option string) :
  (isBound w = true /\ scope (binding w) = Some sc /\
   exec (dollar_bind flags sc p) w = w)
  \/
  (isBound w && scope_eqb (scope (binding w)) (Some sc) = false /\
   exec (dollar_bind flags sc p) w
   = exec (bindBody flags sc p)
          (if isBound w
           then exec (dollar_unbind (Z.lor flags LifecycleFlags_fromBind)) w
           else w)).
Proof.
  unfold dollar_bind, exec, mbind, read, when, ret.
  destruct (isBound w) eqn:Hb; cbn [andb].
  - destruct (scope_eqb (scope (binding w)) (Some sc)) eqn:Hs.
    + left. repeat split.
      destruct (scope (binding w)) as [x|]; [|discriminate].
      cbn in Hs. apply Nat.eqb_eq in Hs. now subst.
    + right. split; [reflexivity|].
      now destruct (dollar_unbind (Z.lor flags LifecycleFlags_fromBind) w).
  - right. split; reflexivity.
Qed.

(** X11. Where [isBound] has a bit that [isBinding] has not, a
    binding is bound, and to the scope given, after every [$bind];
    unless the call was the repeated one with the scope it already had,
    the binding also has the part and the persistent flags of the call,
    and a target observer. *)
Theorem bind_leaves_binding_bound_to_scope
    (w : World) (flags : Z) (sc : ScopeRef) (p : option string) :
  Z.land State_isBound (Z.lnot State_isBinding) <> 0 ->
  let w' := exec (dollar_bind flags sc p) w in
  isBound w' = true /\
  scope (binding w') = Some sc /\
  (isBound w && scope_eqb (scope (binding w)) (Some sc) = false ->
   part (binding w') = p /\
   persistentFlags (binding w')
   = Z.land flags LifecycleFlags_persistentBindingFlags /\
   targetObserverSet (binding w') = true).
Proof.
  intros Hbits w'. subst w'.
  destruct (bind_cases w flags sc p) as [(Hb & Hs & ->)|(Hc & ->)].
  - split; [exact Hb|]. split; [exact Hs|].
    intros Hc. rewrite Hb, Hs in Hc. cbn in Hc.
    rewrite Nat.eqb_refl in Hc. discriminate.
  - match goal with |- context [exec (bindBody flags sc p) ?u] =>
      destruct (bindBody_effect u flags sc p) as (Hst & Hsc & Hp & Hpf & Ho & _);
      set (w' := exec (bindBody flags sc p) u) in *
    end.
    split; [|split; [exact Hsc | intros _; repeat split; assumption]].
    unfold isBound. rewrite Hst, isBound_after_bindBody.
    now apply truthy_true.
Qed.

(** *** Invariants of a binding *)

Lemma handleChange_binding_frame
      (w w' : World) (newValue previousValue : Value) (flags : Z) :
  handleChange newValue previousValue flags w = Returned w' ->
  state (binding w') = state (binding w) /\
  scope (binding w') = scope (binding w) /\
  targetObserverSet (binding w') = targetObserverSet (binding w) /\
  (forallb carriesDirection (trace w) = true ->
   forallb carriesDirection (trace w') = true).
Proof.
  unfold handleChange. intros Hret.
  destruct (isBound w); cbn [negb] in Hret;
    [|inversion Hret; subst; repeat split; trivial].
  destruct (truthy _) in Hret; [|destruct (truthy _) in Hret];
    inversion Hret; subst; clear Hret; run; goal_cases.
  all: repeat split; try reflexivity.
  all: intros H; directed H.
Qed.

Lemma unbind_directed (w : World) (flags : Z) :
  forallb carriesDirection (trace w) = true ->
  forallb carriesDirection (trace (exec (dollar_unbind flags) w)) = true.
Proof.
  intros H. unfold dollar_unbind. run. goal_cases.
  all: try exact H; directed H.
Qed.

Lemma connect_frame (w : World) (flags : Z) :
  binding (exec (connect flags) w) = binding w /\
  (forallb carriesDirection (trace w) = true ->
   forallb carriesDirection (trace (exec (connect flags) w)) = true).
Proof.
  unfold connect. run. goal_cases.
  all: split; [reflexivity | intros H; try exact H; directed H].
Qed.

Lemma runBody_directed (b : TaskBody) (w : World) :
  forallb carriesDirection (trace w) = true ->
  forallb carriesDirection (trace (exec (runBody b) w)) = true.
Proof.
  intros H. destruct b; cbn [runBody]; run; goal_cases.
  all: try exact H; directed H.
Qed.

(** A tick of the scheduler changes no field of the binding, and its
    writes carry their direction. *)
Lemma tick_frame (w : World) :
  binding (exec runMicroTask w) = binding w /\
  binding (exec runRenderTask w) = binding w /\
  (forallb carriesDirection (trace w) = true ->
   forallb carriesDirection (trace (exec runMicroTask w)) = true /\
   forallb carriesDirection (trace (exec runRenderTask w)) = true).
Proof.
  unfold runMicroTask, runRenderTask, exec, mbind, read, ret, modifyScheduler.
  cbn [fst snd].
  destruct (microTasks (scheduler w)) as [|t1 q1];
    destruct (renderTasks (scheduler w)) as [|t2 q2]; cbn [fst snd].
  all: repeat match goal with
         | |- context [snd (runBody ?b ?u)] =>
             let Hf := fresh "Hf" in
             let Hd := fresh "Hd" in
             destruct (runBody_frame b u) as [_ Hf];
             pose proof (runBody_directed b u) as Hd;
             unfold exec in Hf, Hd;
             generalize dependent (snd (runBody b u)); intros
         end.
  all: repeat split; try congruence; try auto.
Qed.

Lemma step_directed (w w' : World) :
  step w w' ->
  forallb carriesDirection (trace w) = true ->
  forallb carriesDirection (trace w') = true.
Proof.
  intros Hstep H. destruct Hstep.
  - eapply handleChange_binding_frame; eassumption.
  - destruct (bind_cases w flags sc p) as [(_ & _ & ->)|(_ & ->)]; [exact H|].
    apply bindBody_effect.
    destruct (isBound w); [now apply unbind_directed | exact H].
  - now apply unbind_directed.
  - now apply connect_frame.
  - now apply tick_frame.
  - now apply tick_frame.
  - exact H.
Qed.

(** X12. Every write a binding ever makes carries the flag of its
    direction: in every world that a newly constructed binding can
    reach, each [setValue] so far was called with
    [updateTargetInstance] in its flags and each [assign] with
    [updateSourceExpression]. *)
Theorem every_write_carries_its_direction
    (b0 : Binding) (o0 : Observer) (st0 : option ScopeRef -> Value) (t0 : Z)
    (w : World) :
  reachable (newWorld b0 o0 st0 t0) w ->
  forallb carriesDirection (trace w) = true.
Proof.
  intros Hr. induction Hr as [|w w' _ IH Hs]; [reflexivity|].
  eapply step_directed; eassumption.
Qed.

Lemma step_bound_has_scope (w w' : World) :
  step w w' ->
  (isBound w = true ->
   (exists sc, scope (binding w) = Some sc) /\
   targetObserverSet (binding w) = true) ->
  isBound w' = true ->
  (exists sc, scope (binding w') = Some sc) /\
  targetObserverSet (binding w') = true.
Proof.
  intros Hstep Hinv. destruct Hstep.
  - destruct (handleChange_binding_frame _ _ _ _ _ H) as (Hs & Hsc & Ho & _).
    unfold isBound. rewrite Hs, Hsc, Ho. exact Hinv.
  - destruct (bind_cases w flags sc p) as [(_ & _ & ->)|(_ & ->)]; [exact Hinv|].
    intros _.
    match goal with |- context [exec (bindBody flags sc p) ?u] =>
      destruct (bindBody_effect u flags sc p) as (_ & Hsc & _ & _ & Ho & _)
    end.
    split; [eauto | exact Ho].
  - rewrite unbind_not_bound. discriminate.
  - destruct (connect_frame w flags) as [Hb _].
    unfold isBound. rewrite Hb. exact Hinv.
  - destruct (tick_frame w) as (Hb & _ & _).
    unfold isBound. rewrite Hb. exact Hinv.
  - destruct (tick_frame w) as (_ & Hb & _).
    unfold isBound. rewrite Hb. exact Hinv.
  - exact Hinv.
Qed.

(** X13. A bound binding has a scope and a target observer: where
    [State.none] has no bit of [isBound], in every world that a binding
    can reach from its constructor, [isBound] set means that [$scope]
    is not null and that [targetObserver] is there. *)
Theorem bound_binding_has_scope_and_observer
    (mode0 kind0 : Z) (hasBind0 hasUnbind0 : bool) (attribute property : string)
    (o0 : Observer) (st0 : option ScopeRef -> Value) (t0 : Z) (w : World) :
  Z.land State_none State_isBound = 0 ->
  reachable (newWorld (newBinding mode0 kind0 hasBind0 hasUnbind0
                                  attribute property) o0 st0 t0) w ->
  isBound w = true ->
  (exists sc, scope (binding w) = Some sc) /\
  targetObserverSet (binding w) = true.
Proof.
  intros Hnone Hr. induction Hr as [|w w' _ IH Hs].
  - unfold isBound, newWorld, newBinding. cbn [binding state].
    rewrite Hnone. discriminate.
  - now apply (step_bound_has_scope w w').
Qed.

(** *** What a notification leaves behind *)

Lemma strict_eq_eq (a b : Value) : strict_eq a b = true -> a = b.
Proof.
  destruct a, b; cbn; try discriminate; intros H; try reflexivity; f_equal.
  - now apply Bool.eqb_prop.
  - now apply Z.eqb_eq.
  - now apply String.eqb_eq.
  - now apply Nat.eqb_eq.
Qed.

Lemma scope_eqb_refl (sc : option ScopeRef) : scope_eqb sc sc = true.
Proof.
  destruct sc; cbn; [apply Nat.eqb_refl | reflexivity].
Qed.

Lemma handleChange_target (w : World) (newValue previousValue : Value) (flags : Z) :
  isBound w = true ->
  truthy (Z.land (adjustFlags (binding w) flags)
                 LifecycleFlags_updateTargetInstance) = true ->
  handleChange newValue previousValue flags w
  = Returned (exec (handleTargetChange newValue (adjustFlags (binding w) flags)) w).
Proof.
  intros Hb Ht. unfold handleChange. rewrite Hb. cbn [negb]. now rewrite Ht.
Qed.

Lemma handleChange_source (w : World) (newValue previousValue : Value) (flags : Z) :
  isBound w = true ->
  truthy (Z.land (adjustFlags (binding w) flags)
                 LifecycleFlags_updateTargetInstance) = false ->
  truthy (Z.land (adjustFlags (binding w) flags)
                 LifecycleFlags_updateSourceExpression) = true ->
  handleChange newValue previousValue flags w
  = Returned (exec (handleSourceChange newValue (adjustFlags (binding w) flags)) w).
Proof.
  intros Hb Ht Hs. unfold handleChange. rewrite Hb. cbn [negb]. now rewrite Ht, Hs.
Qed.

(** X14. Where the two direction flags share no bit and
    [updateSourceExpression] is not zero, a bound [fromView] binding
    takes every notification as a change of the target: it returns,
    writes no target and queues no task, and the source then evaluates
    to the notified value. *)
Theorem fromView_binding_only_updates_source
    (w : World) (newValue previousValue : Value) (flags : Z) :
  isBound w = true ->
  mode (binding w) = BindingMode_fromView ->
  Z.land LifecycleFlags_updateSourceExpression
         LifecycleFlags_updateTargetInstance = 0 ->
  LifecycleFlags_updateSourceExpression <> 0 ->
  exists w',
    handleChange newValue previousValue flags w = Returned w' /\
    existsb is_target_write (events_since w w') = false /\
    existsb is_task_queued (events_since w w') = false /\
    observer w' = observer w /\
    store w' (scope (binding w)) = newValue.
Proof.
  intros Hb Hm Hdis Hnz.
  assert (Hf : adjustFlags (binding w) flags
               = Z.lor (Z.land (Z.lor flags (persistentFlags (binding w)))
                               (Z.lnot LifecycleFlags_updateTargetInstance))
                       LifecycleFlags_updateSourceExpression).
  { unfold adjustFlags. now rewrite Hm, Z.eqb_refl. }
  assert (Ht : truthy (Z.land (adjustFlags (binding w) flags)
                              LifecycleFlags_updateTargetInstance) = false).
  { apply truthy_false. rewrite Hf, Z.land_lor_distr_l, land_lnot_cleared, Hdis.
    reflexivity. }
  assert (Hs : truthy (Z.land (adjustFlags (binding w) flags)
                              LifecycleFlags_updateSourceExpression) = true).
  { apply truthy_true. now rewrite Hf, land_lor_absorb. }
  eexists. split; [now apply handleChange_source|].
  run. destruct (strict_neq newValue (store w (scope (binding w)))) eqn:Hneq;
    goal_fields.
  - repeat split; try (since; reflexivity). now rewrite scope_eqb_refl.
  - repeat split; try (since; reflexivity).
    unfold strict_neq in Hneq. apply negb_false_iff in Hneq.
    symmetry. now apply strict_eq_eq.
Qed.

(** X15. After a notification in the target direction, a bound
    binding on an observer without the [Layout] bit leaves the target
    at the latest value of the source: it has written that value, once,
    or the target had it already. No task is queued and the source is
    not touched. *)
Theorem target_change_leaves_target_at_latest_value
    (w : World) (newValue previousValue : Value) (flags : Z) :
  isBound w = true ->
  truthy (Z.land (adjustFlags (binding w) flags)
                 LifecycleFlags_updateTargetInstance) = true ->
  (0 <? Z.land (otype (observer w)) ObserverType_Layout) = false ->
  exists w',
    handleChange newValue previousValue flags w = Returned w' /\
    currentValue (observer w') = latestValue w newValue /\
    (List.length (filter is_target_write (events_since w w')) <= 1)%nat /\
    existsb is_task_queued (events_since w w') = false /\
    store w' = store w.
Proof.
  intros Hb Ht Hl.
  eexists. split; [now apply handleChange_target|].
  unfold latestValue. run.
  destruct (reevaluates (binding w)); goal_fields; rewrite Hl.
  all: match goal with
       | |- context [strict_neq ?a ?b] => destruct (strict_neq a b) eqn:Hneq
       end; goal_fields.
  all: destruct (Z.land (mode (binding w)) BindingMode_oneTime =? 0); goal_fields.
  all: repeat split; try (since; cbn; lia); try (since; reflexivity).
  all: unfold strict_neq in Hneq; apply negb_false_iff in Hneq;
    symmetry; now apply strict_eq_eq.
Qed.

(** X16. [NaN] is never taken for an old value, [NaN !== NaN] being
    true: a bound binding writes a [NaN] that the source evaluates to
    on every notification in the target direction (here on an observer
    without the [Layout] bit), even when the target holds [NaN]
    already, and assigns a notified [NaN] on every notification in the
    source direction. *)
Theorem NaN_is_propagated_every_time
    (w : World) (newValue previousValue : Value) (flags : Z) :
  isBound w = true ->
  let f := adjustFlags (binding w) flags in
  (truthy (Z.land f LifecycleFlags_updateTargetInstance) = true ->
   (0 <? Z.land (otype (observer w)) ObserverType_Layout) = false ->
   latestValue w newValue = VNaN ->
   exists w',
     handleChange newValue previousValue flags w = Returned w' /\
     filter is_target_write (events_since w w')
     = [SetValue VNaN (Z.lor (Z.lor f (persistentFlags (binding w)))
                             LifecycleFlags_updateTargetInstance)])
  /\
  (truthy (Z.land f LifecycleFlags_updateTargetInstance) = false ->
   truthy (Z.land f LifecycleFlags_updateSourceExpression) = true ->
   newValue = VNaN ->
   exists w',
     handleChange newValue previousValue flags w = Returned w' /\
     filter is_source_write (events_since w w')
     = [Assign (Z.lor (Z.lor f (persistentFlags (binding w)))
                      LifecycleFlags_updateSourceExpression)
               (scope (binding w)) VNaN]).
Proof.
  intros Hb f. split.
  - intros Ht Hl Hnan.
    eexists. split; [now apply handleChange_target|]. fold f.
    unfold latestValue in Hnan. run.
    destruct (reevaluates (binding w)); goal_fields; rewrite Hnan, Hl;
      cbn [strict_neq strict_eq negb]; goal_fields.
    all: destruct (Z.land (mode (binding w)) BindingMode_oneTime =? 0); goal_fields.
    all: since; reflexivity.
  - intros Ht Hs ->.
    eexists. split; [now apply handleChange_source|]. fold f.
    run. cbn [strict_neq strict_eq negb]. goal_fields.
    since. reflexivity.
Qed.

(** X17. After a notification in the target direction a bound binding
    applies [this.version++] and observes its source again, with
    [connect] and then [unobserve(false)], unless its mode has
    [oneTime]: then it does none of the three. [version++] counts one
    more on a version that is a number; on a version that nothing has
    assigned yet (the class declares the field and never initialises
    it) it leaves [NaN]. *)
Theorem target_change_reconnects_unless_oneTime
    (w : World) (newValue previousValue : Value) (flags : Z) :
  isBound w = true ->
  let f := adjustFlags (binding w) flags in
  truthy (Z.land f LifecycleFlags_updateTargetInstance) = true ->
  exists w',
    handleChange newValue previousValue flags w = Returned w' /\
    filter is_reconnect (events_since w w')
    = (if Z.land (mode (binding w)) BindingMode_oneTime =? 0
       then [Connect f (scope (binding w)) (part (binding w)); Unobserve false]
       else []) /\
    version (binding w')
    = (if Z.land (mode (binding w)) BindingMode_oneTime =? 0
       then increment (version (binding w))
       else version (binding w)) /\
    (forall n, version (binding w) = Count n ->
               version (binding w')
               = Count (if Z.land (mode (binding w)) BindingMode_oneTime =? 0
                        then n + 1 else n)) /\
    (version (binding w) = Unassigned ->
     version (binding w')
     = (if Z.land (mode (binding w)) BindingMode_oneTime =? 0
        then NotANumber else Unassigned)).
Proof.
  intros Hb f Ht.
  eexists. split; [now apply handleChange_target|]. fold f.
  run. goal_cases.
  all: split; [since; reflexivity|].
  all: split; [reflexivity|].
  all: split; [intros n Hn | intros Hn]; rewrite Hn; reflexivity.
Qed.

(** *** Two changes within a frame *)

(** A change on a layout observer, from a world where the binding owns
    what is pending: the queues hold the new render task and nothing
    else, and nothing but [task] and [version] changes in the
    binding. *)
Lemma layout_change_requeues
      (w : World) (newValue previousValue : Value) (flags : Z) :
  owns_pending w ->
  isBound w = true ->
  truthy (Z.land (adjustFlags (binding w) flags)
                 LifecycleFlags_updateTargetInstance) = true ->
  (0 <? Z.land (otype (observer w)) ObserverType_Layout) = true ->
  strict_neq (latestValue w newValue) (currentValue (observer w)) = true ->
  exists w',
    handleChange newValue previousValue flags w = Returned w' /\
    scheduler w'
    = mkScheduler [] [mkTask (nextTaskId (scheduler w))
                             (RenderUpdate (now w) (latestValue w newValue)
                                           (adjustFlags (binding w) flags))]
                  (S (nextTaskId (scheduler w))) /\
    task (binding w') = Some (nextTaskId (scheduler w)) /\
    (state (binding w') = state (binding w) /\
     scope (binding w') = scope (binding w) /\
     persistentFlags (binding w') = persistentFlags (binding w) /\
     mode (binding w') = mode (binding w) /\
     kind (binding w') = kind (binding w) /\
     observerSlots (binding w') = observerSlots (binding w)) /\
    observer w' = observer w /\
    exists evs, trace w' = trace w ++ evs /\ filter is_target_write evs = [].
Proof.
  intros Hown Hb Ht Hl Hneq.
  eexists. split; [now apply handleChange_target|].
  unfold latestValue in *. run.
  destruct (reevaluates (binding w)); goal_fields; rewrite Hneq, Hl; goal_fields.
  all: destruct (task (binding w)) as [old|] eqn:Hold;
    [ destruct (owned_cancelled w old Hown Hold) as [Hm Hr]
    | destruct (owned_none w Hown Hold) as [Hm Hr] ]; goal_fields.
  all: destruct (Z.land (mode (binding w)) BindingMode_oneTime =? 0);
    goal_fields; rewrite ?Hm, ?Hr; goal_fields.
  all: repeat split; try reflexivity.
  all: eexists; split;
    [ rewrite <- ?app_assoc; cbn [app]; reflexivity | reflexivity ].
Qed.

(** A tick of the render queue when a single render task of the
    binding is pending. *)
Lemma runRenderTask_single
      (w : World) (id : TaskId) (updateTime : Z) (v : Value) (f : Z) :
  microTasks (scheduler w) = [] ->
  renderTasks (scheduler w) = [mkTask id (RenderUpdate updateTime v f)] ->
  pending (exec runRenderTask w) = [] /\
  exists evs,
    trace (exec runRenderTask w) = trace w ++ evs /\
    filter is_target_write evs
    = (if (lastUpdate (observer w) <? updateTime)
          && (0 <? Z.land (state (binding w)) State_isBound)
       then [SetValue v (Z.lor (Z.lor f (persistentFlags (binding w)))
                               LifecycleFlags_updateTargetInstance)]
       else []).
Proof.
  intros Hm Hr. unfold runRenderTask, pending. run. rewrite Hr.
  goal_fields. cbn [runBody]. run. goal_fields.
  destruct ((lastUpdate (observer w) <? updateTime)
            && (0 <? Z.land (state (binding w)) State_isBound)); goal_fields.
  - rewrite Hm. split; [reflexivity|]. eexists. split; reflexivity.
  - rewrite Hm. split; [reflexivity|]. exists []. now rewrite app_nil_r.
Qed.

(** X18. Let a bound binding on a layout observer be notified of two
    changes before the render queue runs, each in the target direction
    and each with a latest value that is not [===] to the value the
    target observer holds. Only the second reaches the target: after
    the second notification its task, stamped with the time of that
    notification, is the only pending one, and the tick that runs it
    leaves nothing pending and has written, since before the first
    notification, the second value if the stamp is greater than
    [lastUpdate] and [$state & isBound] is positive, and nothing at
    all otherwise. The scopes and the clock may move between the two
    notifications. (Where the second value is the one the target
    holds, the first task stays pending.) *)
Theorem last_notified_value_wins
    (b0 : Binding) (o0 : Observer) (st0 : option ScopeRef -> Value) (t0 : Z)
    (w : World) (newValue1 previousValue1 : Value) (flags1 : Z)
    (newValue2 previousValue2 : Value) (flags2 : Z)
    (st : option ScopeRef -> Value) (t : Z) :
  reachable (newWorld b0 o0 st0 t0) w ->
  isBound w = true ->
  (0 <? Z.land (otype (observer w)) ObserverType_Layout) = true ->
  let f1 := adjustFlags (binding w) flags1 in
  let f2 := adjustFlags (binding w) flags2 in
  let v1 := latestValue w newValue1 in
  let v2 := if reevaluates (binding w) then st (scope (binding w)) else newValue2 in
  truthy (Z.land f1 LifecycleFlags_updateTargetInstance) = true ->
  truthy (Z.land f2 LifecycleFlags_updateTargetInstance) = true ->
  strict_neq v1 (currentValue (observer w)) = true ->
  strict_neq v2 (currentValue (observer w)) = true ->
  exists w1 w2,
    handleChange newValue1 previousValue1 flags1 w = Returned w1 /\
    handleChange newValue2 previousValue2 flags2 (moved st t w1) = Returned w2 /\
    pending w2 = [mkTask (S (nextTaskId (scheduler w))) (RenderUpdate t v2 f2)] /\
    pending (exec runRenderTask w2) = [] /\
    filter is_target_write (events_since w (exec runRenderTask w2))
    = (if (lastUpdate (observer w) <? t)
          && (0 <? Z.land (state (binding w)) State_isBound)
       then [SetValue v2 (Z.lor (Z.lor f2 (persistentFlags (binding w)))
                                LifecycleFlags_updateTargetInstance)]
       else []).
Proof.
  intros Hreach Hb Hl f1 f2 v1 v2 Ht1 Ht2 Hn1 Hn2.
  pose proof (reachable_owns_pending _ _ (newWorld_owns_pending b0 o0 st0 t0) Hreach)
    as Hown.
  destruct (layout_change_requeues w newValue1 previousValue1 flags1
              Hown Hb Ht1 Hl Hn1)
    as (w1 & H1 & Hs1 & Htask1 & (Hst1 & Hsc1 & Hpf1 & Hmo1 & Hk1 & Hos1)
        & Ho1 & ev1 & Htr1 & Hw1).
  set (m := moved st t w1).
  assert (Hbm : binding m = binding w1) by reflexivity.
  assert (Hom : observer m = observer w) by exact Ho1.
  assert (Hre : reevaluates (binding m) = reevaluates (binding w))
    by (unfold reevaluates; now rewrite Hbm, Hk1, Hos1).
  assert (Hfm : adjustFlags (binding m) flags2 = f2)
    by (unfold f2, adjustFlags; now rewrite Hbm, Hpf1, Hmo1).
  assert (Hvm : latestValue m newValue2 = v2).
  { unfold latestValue, v2. rewrite Hre, Hbm, Hsc1. reflexivity. }
  assert (Hownm : owns_pending m).
  { unfold owns_pending, pending. subst m. cbn [moved scheduler binding].
    rewrite Hs1, Htask1. cbn. split; [|lia].
    intros k [<-|[]]. reflexivity. }
  destruct (layout_change_requeues m newValue2 previousValue2 flags2 Hownm)
    as (w2 & H2 & Hs2 & Htask2 & (Hst2 & Hsc2 & Hpf2 & Hmo2 & Hk2 & Hos2)
        & Ho2 & ev2 & Htr2 & Hw2).
  { unfold isBound. rewrite Hbm, Hst1. exact Hb. }
  { now rewrite Hfm. }
  { now rewrite Hom. }
  { now rewrite Hvm, Hom. }
  rewrite Hfm, Hvm in Hs2.
  assert (Hnext : nextTaskId (scheduler m) = S (nextTaskId (scheduler w)))
    by (subst m; cbn [moved scheduler]; now rewrite Hs1).
  assert (Hnow : now m = t) by reflexivity.
  rewrite Hnext, Hnow in Hs2.
  exists w1, w2. split; [exact H1|]. split; [exact H2|].
  split; [unfold pending; now rewrite Hs2|].
  destruct (runRenderTask_single w2 (S (nextTaskId (scheduler w))) t v2 f2)
    as (Hp3 & ev3 & Htr3 & Hw3); [now rewrite Hs2 | now rewrite Hs2 |].
  split; [exact Hp3|].
  rewrite (events_since_app w _ (ev1 ++ ev2 ++ ev3)).
  - rewrite !filter_app, Hw1, Hw2, Hw3. cbn [app].
    now rewrite Ho2, Hom, Hst2, Hbm, Hst1, Hpf2, Hbm, Hpf1.
  - rewrite Htr3, Htr2. subst m. cbn [moved trace]. rewrite Htr1.
    now rewrite <- !app_assoc.
Qed.

(** *** Subscribing to the target *)

(** Rewrites with the conditions that a case analysis has left in the
    context. *)
Ltac conditions :=
  repeat match goal with
         | H : negb _ = true |- _ => apply negb_true_iff in H
         | H : negb _ = false |- _ => apply negb_false_iff in H
         end;
  repeat match goal with
         | H : ?c = true |- context [?c] => rewrite H
         | H : ?c = false |- context [?c] => rewrite H
         end.

(** What [bindBody] does about the subscription: whatever follows
    from these facts holds of the world it leaves. *)
Lemma bindBody_subscription_of
      (u : World) (flags : Z) (sc : ScopeRef) (p : option string)
      (Q : World -> Prop) :
  (forall w' : World,
      (exists evs,
          trace w' = trace u ++ evs /\
          existsb is_subscribe evs
          = truthy (Z.land (mode (binding u)) BindingMode_fromView)) ->
      idSlot (observer w')
      = (if truthy (Z.land (mode (binding u)) BindingMode_fromView)
         then Z.lor (idSlot (boundObserver u flags))
                    LifecycleFlags_updateSourceExpression
         else idSlot (boundObserver u flags)) ->
      Q w') ->
  Q (exec (bindBody flags sc p) u).
Proof.
  intros HQ. unfold bindBody. run. goal_cases.
  all: apply HQ; unfold boundObserver; goal_fields; conditions;
    try reflexivity.
  all: eexists; split;
    [ rewrite <- ?app_assoc; cbn [app]; try reflexivity;
      symmetry; apply app_nil_r
    | reflexivity ].
Qed.

Lemma unbind_subscription_frame (w : World) (flags : Z) :
  mode (binding (exec (dollar_unbind flags) w)) = mode (binding w) /\
  exists evs,
    trace (exec (dollar_unbind flags) w) = trace w ++ evs /\
    existsb is_subscribe evs = false.
Proof.
  unfold dollar_unbind. run. goal_cases.
  all: split; [reflexivity|].
  all: eexists; split;
    [ rewrite <- ?app_assoc; cbn [app]; try reflexivity;
      symmetry; apply app_nil_r
    | reflexivity ].
Qed.

Lemma unbind_unsubscribes (u : World) (flags : Z) :
  isBound u = true ->
  let w' := exec (dollar_unbind flags) u in
  if hasUnsubscribe (observer u)
  then existsb is_unsubscribe (events_since u w') = true /\
       Z.land (idSlot (observer w')) LifecycleFlags_updateSourceExpression = 0
  else existsb is_unsubscribe (events_since u w') = false /\
       idSlot (observer w') = idSlot (observer u).
Proof.
  intros Hb w'. subst w'. unfold dollar_unbind. run. rewrite Hb.
  goal_cases.
  all: try discriminate.
  all: split; [since; reflexivity|].
  all: first [apply land_lnot_cleared | reflexivity].
Qed.

(** X19. The subscription to the target follows the mode on [$bind]
    and not on [$unbind]. A [$bind] that is not the repeated one
    subscribes to the target observer, and sets the binding's flag on
    it, exactly when the mode has [fromView]. The [$unbind] after it
    asks the observer only: where the observer has [unsubscribe] it
    unsubscribes and clears the flag, whether or not [$bind] had
    subscribed; where it has not, a flag that [$bind] set stays. *)
Theorem subscription_follows_mode_on_bind_only
    (w : World) (flags : Z) (sc : ScopeRef) (p : option string) (flags' : Z) :
  Z.land State_isBound (Z.lnot State_isBinding) <> 0 ->
  isBound w && scope_eqb (scope (binding w)) (Some sc) = false ->
  let w1 := exec (dollar_bind flags sc p) w in
  let w2 := exec (dollar_unbind flags') w1 in
  existsb is_subscribe (events_since w w1)
  = truthy (Z.land (mode (binding w)) BindingMode_fromView) /\
  (truthy (Z.land (mode (binding w)) BindingMode_fromView) = true ->
   Z.land (idSlot (observer w1)) LifecycleFlags_updateSourceExpression
   = LifecycleFlags_updateSourceExpression) /\
  (if hasUnsubscribe (observer w1)
   then existsb is_unsubscribe (events_since w1 w2) = true /\
        Z.land (idSlot (observer w2)) LifecycleFlags_updateSourceExpression = 0
   else existsb is_unsubscribe (events_since w1 w2) = false /\
        idSlot (observer w2) = idSlot (observer w1)).
Proof.
  intros Hbits Hc w1 w2. subst w2 w1.
  destruct (bind_cases w flags sc p) as [(Hb & Hs & _)|(_ & ->)].
  { rewrite Hb, Hs in Hc. cbn in Hc. rewrite Nat.eqb_refl in Hc. discriminate. }
  set (u := if isBound w
            then exec (dollar_unbind (Z.lor flags LifecycleFlags_fromBind)) w
            else w).
  assert (Hu : mode (binding u) = mode (binding w) /\
               exists evs, trace u = trace w ++ evs /\
                           existsb is_subscribe evs = false).
  { subst u. destruct (isBound w).
    - apply unbind_subscription_frame.
    - split; [reflexivity|]. exists []. now rewrite app_nil_r. }
  destruct Hu as (Hmode & evs0 & Htr0 & Hsub0).
  assert (Hbound : isBound (exec (bindBody flags sc p) u) = true).
  { destruct (bindBody_effect u flags sc p) as (Hst & _).
    unfold isBound. rewrite Hst, isBound_after_bindBody.
    now apply truthy_true. }
  split; [|split].
  - apply (bindBody_subscription_of u flags sc p). intros w' (evs & Htr & Hsub) _.
    rewrite (events_since_app w w' (evs0 ++ evs))
      by (rewrite Htr, Htr0; now rewrite app_assoc).
    now rewrite existsb_app, Hsub0, Hsub, Hmode.
  - intros Hm.
    apply (bindBody_subscription_of u flags sc p). intros w' _ Hid.
    rewrite Hmode, Hm in Hid. rewrite Hid. apply land_lor_absorb.
  - exact (unbind_unsubscribes _ flags' Hbound).
Qed.

(** *** Binding again *)

(** C9. [$bind] on a binding already bound to the same scope returns
    at once and changes nothing at all; on a binding bound to another
    scope it first runs the whole of [$unbind] (with [fromBind] added
    to the flags), which clears [isBound], the scope and the
    persistent flags and makes the calls of [unbindEvents], and then
    binds: the calls of [$unbind] come first among the calls of
    [$bind], and [$bind] leaves the binding with the new scope, the
    part and the persistent flags of the call, a target observer, and
    [isBound] set in place of [isBinding] (so that the binding is
    bound, where [isBound] has a bit that [isBinding] has not). *)
Theorem bind_same_scope_idempotent_other_scope_unbinds_first
    (w : World) (flags : Z) (sc : ScopeRef) (p : option string) :
  isBound w = true ->
  (scope (binding w) = Some sc -> dollar_bind flags sc p w = (tt, w))
  /\
  (scope (binding w) <> Some sc ->
   let u := exec (dollar_unbind (Z.lor flags LifecycleFlags_fromBind)) w in
   let w' := exec (dollar_bind flags sc p) w in
   (w' = exec (bindBody flags sc p) u /\
    isBound u = false /\
    scope (binding u) = None /\
    persistentFlags (binding u) = LifecycleFlags_none /\
    events_since w u = unbindEvents w (Z.lor flags LifecycleFlags_fromBind)) /\
   (exists evs,
       events_since w w'
       = unbindEvents w (Z.lor flags LifecycleFlags_fromBind) ++ evs) /\
   scope (binding w') = Some sc /\
   part (binding w') = p /\
   persistentFlags (binding w')
   = Z.land flags LifecycleFlags_persistentBindingFlags /\
   targetObserverSet (binding w') = true /\
   state (binding w')
   = Z.land (Z.lor (Z.lor (state (binding u)) State_isBinding) State_isBound)
            (Z.lnot State_isBinding) /\
   (Z.land State_isBound (Z.lnot State_isBinding) <> 0 -> isBound w' = true)).
Proof.
  intros Hb. split.
  - intros Hs. unfold dollar_bind, mbind, read. rewrite Hb, Hs.
    cbn [scope_eqb andb]. now rewrite Nat.eqb_refl.
  - intros Hs u w'.
    assert (Hne : scope_eqb (scope (binding w)) (Some sc) = false).
    { destruct (scope (binding w)) as [x|]; cbn; [|reflexivity].
      apply Nat.eqb_neq. intros ->. now apply Hs. }
    assert (Hw' : w' = exec (bindBody flags sc p) u).
    { subst w' u. unfold dollar_bind, exec, mbind, read, when. rewrite Hb, Hne.
      cbn [andb]. unfold exec.
      destruct (dollar_unbind (Z.lor flags LifecycleFlags_fromBind) w).
      reflexivity. }
    destruct (unbind_bound w (Z.lor flags LifecycleFlags_fromBind) Hb)
      as (_ & H1 & H2 & H3 & H4).
    fold u in H1, H2, H3, H4.
    destruct (bindBody_effect u flags sc p) as (Hst & Hsc & Hp & Hpf & Ho & _).
    rewrite <- Hw' in Hst, Hsc, Hp, Hpf, Ho.
    split; [repeat split; assumption|].
    split.
    { assert (Hu : trace u = trace w ++ unbindEvents w (Z.lor flags LifecycleFlags_fromBind)).
      { rewrite <- H4. unfold events_since.
        destruct (unbind_subscription_frame w (Z.lor flags LifecycleFlags_fromBind))
          as (_ & evs0 & Htr0 & _).
        fold u in Htr0. rewrite Htr0. now rewrite skipn_past. }
      rewrite Hw'.
      apply (bindBody_subscription_of u flags sc p). intros v (evs & Htr & _) _.
      exists evs. apply events_since_app. rewrite Htr, Hu.
      now rewrite app_assoc. }
    split; [exact Hsc|]. split; [exact Hp|]. split; [exact Hpf|].
    split; [exact Ho|]. split; [exact Hst|].
    intros Hbits. unfold isBound. rewrite Hst, isBound_after_bindBody.
    now apply truthy_true.
Qed.

(** *** Observing on demand *)

(** X20. [connect] observes and does nothing else: it leaves the
    binding, the observer, the scopes and the scheduler as they are,
    writes nothing, and calls [sourceExpression.connect] once if the
    binding is bound and not at all otherwise. The flags of that call
    have [mustEvaluate] and every persistent flag of the binding
    set. *)
Theorem connect_only_observes (w : World) (flags : Z) :
  let w' := exec (connect flags) w in
  binding w' = binding w /\
  observer w' = observer w /\
  store w' = store w /\
  scheduler w' = scheduler w /\
  exists evs,
    events_since w w' = evs /\
    List.length evs = (if isBound w then 1%nat else 0%nat) /\
    forall e, In e evs ->
      exists f,
        e = Connect f (scope (binding w)) (part (binding w)) /\
        Z.land f LifecycleFlags_mustEvaluate = LifecycleFlags_mustEvaluate /\
        Z.land f (persistentFlags (binding w)) = persistentFlags (binding w).
Proof.
  intros w'. subst w'. unfold connect. run. destruct (isBound w); goal_fields.
  - repeat split. eexists. split; [since; reflexivity|].
    split; [reflexivity|].
    intros e [<-|[]]. eexists. split; [reflexivity|].
    split; [apply land_lor_absorb|].
    rewrite Z.land_lor_distr_l, land_lor_absorb.
    apply Z.bits_inj'. intros n Hn.
    rewrite Z.lor_spec, !Z.land_spec.
    destruct (Z.testbit flags n), (Z.testbit (persistentFlags (binding w)) n),
      (Z.testbit LifecycleFlags_mustEvaluate n); reflexivity.
  - repeat split. exists []. split; [apply events_since_refl|].
    split; [reflexivity|]. intros e [].
Qed.

End BindingProperties.

(** * Properties of the patterns *)

Section RegexProperties.
Import Regex.
Local Open Scope string_scope.

Lemma append_empty_r (s : string) : s ++ "" = s.
Proof.
  induction s as [|c s IH]; [reflexivity | cbn; now rewrite IH].
Qed.

Lemma append_is_empty (a b : string) : a ++ b = "" -> a = "" /\ b = "".
Proof.
  destruct a; cbn; [auto | discriminate].
Qed.

Lemma nullable_complete (r : Regex) : lang r "" -> nullable r = true.
Proof.
  intros H. remember "" as s eqn:Hs.
  induction H; cbn; try reflexivity; try discriminate.
  - apply append_is_empty in Hs as [-> ->].
    now rewrite IHlang1, IHlang2.
  - now rewrite IHlang.
  - rewrite IHlang by assumption. apply orb_true_r.
Qed.

Lemma derive_complete (r : Regex) (c : ascii) (s : string) :
  lang r (String c s) -> lang (derive c r) s.
Proof.
  intros H. remember (String c s) as cs eqn:Hcs. revert s Hcs.
  induction H as [ | p c0 Hp | r1 r2 s1 s2 H1 IH1 H2 IH2 | r1 r2 s0 H0 IH
                 | r1 r2 s0 H0 IH | r | r s1 s2 H1 IH1 H2 IH2 ];
    intros t Hcs; cbn; try discriminate.
  - injection Hcs as -> <-. rewrite Hp. constructor.
  - destruct s1 as [|x s1]; cbn in Hcs.
    + subst s2. rewrite (nullable_complete _ H1).
      apply lang_alt_r. now apply IH2.
    + injection Hcs as -> <-.
      assert (Hl : lang (Seq (derive c r1) r2) (s1 ++ s2))
        by (constructor; [now apply IH1 | assumption]).
      destruct (nullable r1); [now apply lang_alt_l | assumption].
  - apply lang_alt_l. now apply IH.
  - apply lang_alt_r. now apply IH.
  - destruct s1 as [|x s1]; cbn in Hcs.
    + now apply IH2.
    + injection Hcs as -> <-. constructor; [now apply IH1 | assumption].
Qed.

(** The matcher accepts every string of the pattern. *)
Lemma matches_complete (r : Regex) (s : string) :
  lang r s -> matches r s = true.
Proof.
  revert r. induction s as [|c s IH]; intros r H; cbn.
  - now apply nullable_complete.
  - now apply IH, derive_complete.
Qed.

Lemma lang_Lit (s : string) : lang (Lit s) s.
Proof.
  induction s as [|c s IH]; cbn; [constructor|].
  change (String c s) with (String c "" ++ s).
  constructor; [|exact IH]. constructor. apply Ascii.eqb_refl.
Qed.

Lemma lang_Anything (s : string) : lang Anything s.
Proof.
  induction s as [|c s IH]; [constructor|].
  change (String c s) with (String c "" ++ s).
  constructor; [now constructor | exact IH].
Qed.

Lemma lang_Star_Dot (s : string) : singleLine s = true -> lang (Star Dot) s.
Proof.
  induction s as [|c s IH]; cbn; intros H; [constructor|].
  apply andb_true_iff in H as [Hc Hs].
  change (String c s) with (String c "" ++ s).
  constructor; [now constructor | now apply IH].
Qed.

(** [.+] reads any non-empty text on one line. *)
Lemma lang_Plus_Dot (s : string) :
  String.eqb s "" = false -> singleLine s = true -> lang (Plus Dot) s.
Proof.
  destruct s as [|c s]; cbn; [discriminate|]. intros _ H.
  apply andb_true_iff in H as [Hc Hs].
  change (String c s) with (String c "" ++ s).
  constructor; [now constructor | now apply lang_Star_Dot].
Qed.

(** A pattern without anchors is found anywhere in the text. *)
Lemma test_substring (r : Regex) (before s after : string) :
  lang r s -> test r (before ++ s ++ after) = true.
Proof.
  intros H. apply matches_complete.
  constructor; [apply lang_Anything|].
  constructor; [exact H | apply lang_Anything].
Qed.

Lemma test_whole (r : Regex) (s : string) : lang r s -> test r s = true.
Proof.
  intros H. rewrite <- (append_empty_r s).
  change (s ++ "") with ("" ++ s ++ ""). now apply test_substring.
Qed.

End RegexProperties.

(** * Properties of route matching *)

Section RouterProperties.
Import Regex Router.
Local Open Scope string_scope.

(** The message of a RouteMatchError matches the pattern built from
    its segment and its ancestor path. *)
Lemma message_matches (wd : Wording) (e : RouteMatchError) :
  wordingOk wd = true ->
  test (didNotMatch (unmatched e) (ancestorPath e)) (message wd e) = true.
Proof.
  unfold wordingOk. intros H.
  apply andb_true_iff in H as [H H4]. apply andb_true_iff in H as [H H3].
  apply andb_true_iff in H as [H1 H2].
  apply negb_true_iff in H1. apply negb_true_iff in H3.
  apply test_whole. unfold didNotMatch, message.
  repeat (constructor; [first [apply lang_Lit | now apply lang_Plus_Dot]|]).
  apply lang_Lit.
Qed.

Lemma rejectedWith_Failed (wd : Wording) (s a : string) :
  wordingOk wd = true ->
  rejectedWith (Failed (mkRouteMatchError s a)) wd (didNotMatch s a) = true.
Proof.
  intros H. exact (message_matches wd (mkRouteMatchError s a) H).
Qed.

Lemma find_none_iff {A : Type} (f : A -> bool) (l : list A) :
  (forall x, In x l -> f x = false) -> find f l = None.
Proof.
  induction l as [|a l IH]; intros H; [reflexivity|].
  cbn. rewrite (H a (or_introl eq_refl)). apply IH. intros x Hx. apply H. now right.
Qed.

(** A node answers only to its own segment. *)
Lemma answers_segment (mode : RoutingMode) (reg : Registry) (s : string) (n : RouteNode) :
  answers mode reg s n = true -> segment n = s.
Proof.
  unfold answers. destruct (configured n).
  - apply String.eqb_eq.
  - destruct mode; [|discriminate].
    intros H. apply andb_true_iff in H as [H _]. now apply String.eqb_eq.
Qed.

(** No segment of [parent] is [s], and, when dependencies count, no
    dependency is named [s]: nothing answers. *)
Lemma nothing_answers (mode : RoutingMode) (reg : Registry) (parent : ComponentId) (s : string) :
  (forall n, In n (configuredNodes reg parent) -> segment n <> s) ->
  (mode = ConfiguredFirst ->
   forall k, In k (dependencies (reg parent)) -> isConfigured reg parent k = false ->
             name (reg k) <> s) ->
  find (answers mode reg s) (routeNodes reg parent) = None.
Proof.
  intros Hc Hd. apply find_none_iff. intros n Hn.
  destruct (answers mode reg s n) eqn:Ha; [|reflexivity]. exfalso.
  pose proof (answers_segment _ _ _ _ Ha) as Hseg.
  unfold routeNodes in Hn. apply in_app_or in Hn as [Hn|Hn].
  - now apply (Hc n).
  - unfold dependencyNodes in Hn. apply in_map_iff in Hn as (k & <- & Hk).
    apply filter_In in Hk as [Hk Hcfg]. apply negb_true_iff in Hcfg.
    unfold answers in Ha. cbn in Ha, Hseg.
    destruct mode; [|discriminate]. now apply (Hd eq_refl k).
Qed.

Lemma find_first_answer {A : Type} (f : A -> bool) (l : list A) (x : A) :
  In x l -> f x = true -> exists y, find f l = Some y /\ In y l /\ f y = true.
Proof.
  induction l as [|a l IH]; intros Hin Hf; [contradiction|].
  cbn. destruct (f a) eqn:Ha.
  - exists a. repeat split; auto.
  - destruct Hin as [->|Hin]; [congruence|].
    destruct (IH Hin Hf) as (y & Hy & Hyl & Hfy).
    exists y. repeat split; auto.
Qed.

(** Loading a path of one segment: the first route of the root that
    answers decides. *)
Lemma load_single_segment (mode : RoutingMode) (reg : Registry)
      (root : ComponentId) (s : string) :
  splitPath s = [s] ->
  load mode reg root s
  = match find (answers mode reg s) (routeNodes reg root) with
    | None => Failed (mkRouteMatchError s (name (reg root)))
    | Some n =>
        if Nat.eqb (component n) root
        then Failed (mkRouteMatchError s (name (reg root)))
        else Resolved [root; component n]
    end.
Proof.
  intros H. unfold load. rewrite H. cbn [resolve existsb].
  destruct (find (answers mode reg s) (routeNodes reg root)) as [n|];
    [|reflexivity].
  rewrite orb_false_r. destruct (Nat.eqb (component n) root); reflexivity.
Qed.

(** C1, as amended. Let the root list the component [d] among its
    dependencies and not among its route children, and let
    - [d] declare no path other than its name,
    - the root configure no route whose segment is the name of [d],
    - the root, if it lists itself as a dependency, bear another
      name, and
    - the name of [d] have no slash.
    Loading the name of [d] then resolves under ['configured-first'],
    to a component of that name that the root lists only as a
    dependency ([d] itself when no other dependency bears its name);
    under ['configured-only'] it is rejected with a RouteMatchError
    whose message matches
    [/'<name>'.+did not match.+'<root name>'/]. *)
Theorem dependency_loaded_by_name_under_configured_first_only
    (reg : Registry) (root d : ComponentId) (wd : Wording) :
  wordingOk wd = true ->
  In d (dependencies (reg root)) ->
  isConfigured reg root d = false ->
  nameIsRoute (reg d) = true ->
  (forall n, In n (configuredNodes reg root) -> segment n <> name (reg d)) ->
  (In root (dependencies (reg root)) -> name (reg root) <> name (reg d)) ->
  splitPath (name (reg d)) = [name (reg d)] ->
  (exists k,
      load ConfiguredFirst reg root (name (reg d)) = Resolved [root; k] /\
      In k (dependencies (reg root)) /\
      isConfigured reg root k = false /\
      name (reg k) = name (reg d) /\
      ((forall k', In k' (dependencies (reg root)) ->
                   name (reg k') = name (reg d) -> k' = d) -> k = d)) /\
  load ConfiguredOnly reg root (name (reg d))
    = Failed (mkRouteMatchError (name (reg d)) (name (reg root))) /\
  rejectedWith (load ConfiguredOnly reg root (name (reg d))) wd
               (didNotMatch (name (reg d)) (name (reg root))) = true.
Proof.
  intros Hwd Hd Hcfg Hroute Hconf Hroot Hsplit.
  assert (Honly : load ConfiguredOnly reg root (name (reg d))
                  = Failed (mkRouteMatchError (name (reg d)) (name (reg root)))).
  { rewrite load_single_segment by exact Hsplit.
    rewrite nothing_answers; [reflexivity | exact Hconf | discriminate]. }
  split; [|split; [exact Honly | rewrite Honly; now apply rejectedWith_Failed]].
  rewrite load_single_segment by exact Hsplit.
  destruct (find_first_answer
              (answers ConfiguredFirst reg (name (reg d)))
              (routeNodes reg root)
              (mkRouteNode (name (reg d)) d false))
    as (n & Hfind & Hin & Hans).
  { unfold routeNodes, dependencyNodes. apply in_or_app. right.
    apply in_map_iff. exists d. split; [reflexivity|].
    apply filter_In. split; [exact Hd | now rewrite Hcfg]. }
  { unfold answers. cbn. now rewrite String.eqb_refl, Hroute. }
  rewrite Hfind.
  pose proof (answers_segment _ _ _ _ Hans) as Hseg.
  unfold routeNodes in Hin. apply in_app_or in Hin as [Hin|Hin];
    [exfalso; exact (Hconf n Hin Hseg)|].
  unfold dependencyNodes in Hin. apply in_map_iff in Hin as (k & <- & Hk).
  apply filter_In in Hk as [Hk Hkc]. apply negb_true_iff in Hkc.
  cbn [segment component] in *.
  assert (Hne : Nat.eqb k root = false).
  { apply Nat.eqb_neq. intros ->. exact (Hroot Hk Hseg). }
  rewrite Hne. exists k.
  split; [reflexivity|]. split; [exact Hk|]. split; [exact Hkc|].
  split; [exact Hseg|]. intros Huniq. exact (Huniq k Hk Hseg).
Qed.

(** C5, as amended. Let the route configuration of the root list
    the component [d], by reference or with a path, and let [d]
    declare a path other than its name. Provided that
    - no child route of the root, the bare reference to [d] apart,
      has the name of [d] for its segment,
    - under ['configured-first'], no other dependency of the root
      bears the name of [d], and
    - the name of [d] has no slash,
    loading the name of [d] is rejected in both routing modes, with a
    RouteMatchError whose message matches
    [/'<name>'.+did not match.+'<root name>'/]. *)
Theorem configured_child_with_path_not_loaded_by_name
    (reg : Registry) (root d : ComponentId) (p : string)
    (mode : RoutingMode) (wd : Wording) :
  wordingOk wd = true ->
  isConfigured reg root d = true ->
  path (reg d) = Some p ->
  p <> name (reg d) ->
  (forall c, In c (children (reg root)) -> c <> ComponentChild d ->
             segment (configuredNode reg c) <> name (reg d)) ->
  (mode = ConfiguredFirst ->
   forall k, In k (dependencies (reg root)) -> k <> d ->
             name (reg k) <> name (reg d)) ->
  splitPath (name (reg d)) = [name (reg d)] ->
  load mode reg root (name (reg d))
    = Failed (mkRouteMatchError (name (reg d)) (name (reg root))) /\
  rejectedWith (load mode reg root (name (reg d))) wd
               (didNotMatch (name (reg d)) (name (reg root))) = true.
Proof.
  intros Hwd Hchild Hpath Hne Hothers Hdeps Hsplit.
  assert (Hl : load mode reg root (name (reg d))
               = Failed (mkRouteMatchError (name (reg d)) (name (reg root)))).
  { rewrite load_single_segment by exact Hsplit.
    rewrite nothing_answers; [reflexivity | |].
    - intros n Hn. unfold configuredNodes in Hn.
      apply in_map_iff in Hn as (c & <- & Hc).
      destruct c as [q k|k].
      + apply Hothers; [exact Hc | discriminate].
      + destruct (Nat.eq_dec k d) as [->|Hk].
        * cbn. rewrite Hpath. exact Hne.
        * apply Hothers; [exact Hc | congruence].
    - intros Hm k Hk Hcfg. apply (Hdeps Hm k Hk). intros ->. congruence. }
  split; [exact Hl | rewrite Hl; now apply rejectedWith_Failed].
Qed.

(** C6, as amended. A component that the parent lists only as a
    dependency is not reached by the path it declares: when that path
    has no slash, is not a segment the parent configures and, under
    ['configured-first'], is not the name of one of the parent's
    dependencies, loading it is rejected in both routing modes, with
    a RouteMatchError whose message matches
    [/'<path>'.+did not match.+'<root name>'/]. *)
Theorem dependency_not_loaded_by_its_path
    (reg : Registry) (root d : ComponentId) (p : string)
    (mode : RoutingMode) (wd : Wording) :
  wordingOk wd = true ->
  In d (dependencies (reg root)) ->
  isConfigured reg root d = false ->
  path (reg d) = Some p ->
  (forall n, In n (configuredNodes reg root) -> segment n <> p) ->
  (mode = ConfiguredFirst ->
   forall k, In k (dependencies (reg root)) -> name (reg k) <> p) ->
  splitPath p = [p] ->
  load mode reg root p = Failed (mkRouteMatchError p (name (reg root))) /\
  rejectedWith (load mode reg root p) wd
               (didNotMatch p (name (reg root))) = true.
Proof.
  intros Hwd Hd Hcfg Hpath Hconf Hdeps Hsplit.
  assert (Hl : load mode reg root p
               = Failed (mkRouteMatchError p (name (reg root)))).
  { unfold load. rewrite Hsplit. cbn [resolve].
    rewrite nothing_answers; [reflexivity | exact Hconf |].
    intros Hm k Hk _. now apply Hdeps. }
  split; [exact Hl | rewrite Hl; now apply rejectedWith_Failed].
Qed.

(** *** Walking a path *)

Lemma resolve_extends (mode : RoutingMode) (reg : Registry)
      (segments : list string) (trail trail' : list ComponentId) (current : ComponentId) :
  resolve mode reg trail current segments = Resolved trail' ->
  exists more : list ComponentId, trail' = (trail ++ more)%list.
Proof.
  revert trail current. induction segments as [|s rest IH]; intros trail current H.
  - injection H as <-. exists []. now rewrite app_nil_r.
  - cbn in H.
    destruct (find (answers mode reg s) (routeNodes reg current)) as [n|];
      [|discriminate].
    destruct (existsb (Nat.eqb (component n)) trail); [discriminate|].
    destruct (IH _ _ H) as (more & ->).
    exists (component n :: more). now rewrite <- app_assoc.
Qed.

Lemma last_nonempty {A : Type} (l : list A) (a b : A) :
  l <> [] -> last l a = last l b.
Proof.
  induction l as [|x l IH]; [congruence|]. intros _.
  destruct l as [|y l]; [reflexivity|].
  cbn [last]. apply IH. discriminate.
Qed.

(** Resolving a path is resolving its beginning and going on from
    where that ends. *)
Lemma resolve_app (mode : RoutingMode) (reg : Registry)
      (pre rest : list string) (trail : list ComponentId) (current : ComponentId) :
  last trail current = current ->
  resolve mode reg trail current (pre ++ rest) =
    match resolve mode reg trail current pre with
    | Resolved trail' => resolve mode reg trail' (last trail' current) rest
    | Failed e => Failed e
    end.
Proof.
  revert trail current. induction pre as [|s pre IH]; intros trail current Hlast.
  - cbn. now rewrite Hlast.
  - cbn.
    destruct (find (answers mode reg s) (routeNodes reg current)) as [n|];
      [|reflexivity].
    destruct (existsb (Nat.eqb (component n)) trail); [reflexivity|].
    rewrite IH by apply last_last.
    destruct (resolve mode reg (trail ++ [component n]) (component n) pre)
      as [trail'|e] eqn:Hr; [|reflexivity].
    apply resolve_extends in Hr as (more & ->).
    f_equal. apply last_nonempty. destruct trail; discriminate.
Qed.

(** C2, as amended. Let the beginning of a path resolve, from the
    root, to a trail of components, and let the next segment be the
    name of a component [a] on that trail. Provided that every route
    of the component reached last that answers to this segment leads
    to a component on the trail, loading the path is rejected in both
    routing modes with a RouteMatchError for that name citing the
    whole trail, of which the name of [a] is a part, whatever follows
    the segment: its message matches
    [/'<name>'.+did not match.+'<root/.../last>'/]. *)
Theorem revisiting_an_ancestor_is_rejected
    (reg : Registry) (mode : RoutingMode) (root : ComponentId) (wd : Wording)
    (p : string) (pre : list string) (a : ComponentId) (rest : list string)
    (trail : list ComponentId) :
  wordingOk wd = true ->
  splitPath p = (pre ++ name (reg a) :: rest)%list ->
  resolve mode reg [root] root pre = Resolved trail ->
  In a trail ->
  (forall n, In n (routeNodes reg (last trail root)) ->
             answers mode reg (name (reg a)) n = true ->
             In (component n) trail) ->
  load mode reg root p
    = Failed (mkRouteMatchError (name (reg a)) (friendlyPath reg trail)) /\
  rejectedWith (load mode reg root p) wd
               (didNotMatch (name (reg a)) (friendlyPath reg trail)) = true /\
  exists before after : list string,
    friendlyPath reg trail
    = String.concat "/" (before ++ name (reg a) :: after)%list.
Proof.
  intros Hwd Hsplit Hpre Ha Hback.
  assert (Hl : load mode reg root p
               = Failed (mkRouteMatchError (name (reg a))
                                           (friendlyPath reg trail))).
  { unfold load. rewrite Hsplit, resolve_app, Hpre by reflexivity.
    cbn [resolve].
    destruct (find (answers mode reg (name (reg a)))
                   (routeNodes reg (last trail root)))
      as [n|] eqn:Hfind; [|reflexivity].
    apply find_some in Hfind as [Hin Hans].
    assert (Hex : existsb (Nat.eqb (component n)) trail = true).
    { apply existsb_exists. exists (component n).
      split; [now apply Hback | apply Nat.eqb_refl]. }
    now rewrite Hex. }
  split; [exact Hl|].
  split; [rewrite Hl; now apply rejectedWith_Failed|].
  destruct (in_split _ _ (in_map (fun k => name (reg k)) trail a Ha))
    as (before & after & Hnames).
  exists before, after. unfold friendlyPath. now rewrite Hnames.
Qed.

End RouterProperties.

(** * The properties on the example bindings and component trees *)

Section BindingExamples.
Import JS AttributeBinding.
Local Open Scope string_scope.
Local Existing Instance sampleRuntime.

(** On a settled [toView] binding a notification writes nothing to
    the target; on a settled [fromView] binding the incoming value,
    equal to the source's, is not assigned. *)
Lemma handleChange_equal_value_on_settled_bindings :
  isBound (settledWorld 2) = true /\
  (exists w',
      handleChange (VStr "other") VUndefined 1 (settledWorld 2) = Returned w' /\
      existsb is_target_write (events_since (settledWorld 2) w') = false /\
      existsb is_task_queued (events_since (settledWorld 2) w') = false /\
      observer w' = observer (settledWorld 2) /\
      scheduler w' = scheduler (settledWorld 2) /\
      task (binding w') = task (binding (settledWorld 2))) /\
  (exists w',
      handleChange (VStr "one") VUndefined 0 (settledWorld 4) = Returned w' /\
      existsb is_source_write (events_since (settledWorld 4) w') = false /\
      store w' = store (settledWorld 4)).
Proof.
  split; [reflexivity|]. split.
  - apply (handleChange_equal_value_not_propagated (R := sampleRuntime)
             (settledWorld 2) (VStr "other") VUndefined 1); reflexivity.
  - apply (handleChange_equal_value_not_propagated (R := sampleRuntime)
             (settledWorld 4) (VStr "one") VUndefined 0); reflexivity.
Defined.

(** A notification without a direction, on a bound [toView] binding
    without persistent flags, throws. *)
Lemma handleChange_without_direction_throws :
  isBound (settledWorld 2) = true /\
  handleChange (VStr "x") VUndefined 0 (settledWorld 2)
    = Thrown (ReporterError 15 0) (settledWorld 2) /\
  (exists w', handleChange (VStr "x") VUndefined 1 (settledWorld 2) = Returned w').
Proof.
  split; [reflexivity|]. split.
  - destruct (handleChange_throws_iff_no_direction (R := sampleRuntime)
                (settledWorld 2) (VStr "x") VUndefined 0 eq_refl) as [[_ H] _].
    apply H. split; reflexivity.
  - destruct (handleChange_throws_iff_no_direction (R := sampleRuntime)
                (settledWorld 2) (VStr "x") VUndefined 1 eq_refl) as (_ & _ & H).
    apply H. left. discriminate.
Defined.

Lemma layoutWorld_reachable : reachable layoutStart layoutWorld.
Proof.
  pose (w1 := exec (dollar_bind (R := sampleRuntime) 0 1%nat None) layoutStart).
  pose (w2 := moved changedStore 150 w1).
  refine (reachable_step layoutStart layoutNotified layoutWorld _
            (step_environment layoutNotified (observer layoutNotified)
                              changedAgainStore 160 _));
    [|vm_compute; discriminate].
  refine (reachable_step layoutStart w2 layoutNotified _
            (step_handleChange VUndefined VUndefined 1 w2 layoutNotified _));
    [|vm_compute; reflexivity].
  refine (reachable_step layoutStart w1 w2 _
            (step_environment w1 (observer w1) changedStore 150 _));
    [|vm_compute; discriminate].
  exact (reachable_step layoutStart layoutStart w1 (reachable_refl layoutStart)
           (step_bind 0 1%nat None layoutStart)).
Defined.

(** The second change on the layout binding replaces the pending
    render task of the first by one stamped 160, and writes nothing
    yet. *)
Lemma layout_change_on_layoutWorld :
  reachable layoutStart layoutWorld /\
  isBound layoutWorld = true /\
  renderTasks (scheduler layoutWorld)
    = [mkTask 0%nat (RenderUpdate 150 (VStr "changed") 1)] /\
  exists w',
    handleChange (VStr "ignored") VUndefined 1 layoutWorld = Returned w' /\
    existsb is_target_write (events_since layoutWorld w') = false /\
    In (CancelTask 0%nat) (events_since layoutWorld w') /\
    renderTasks (scheduler w')
      = [mkTask 1%nat (RenderUpdate 160 (VStr "changed again") 1)] /\
    task (binding w') = Some 1%nat.
Proof.
  assert (Hb : isBound layoutWorld = true) by (vm_compute; reflexivity).
  split; [exact layoutWorld_reachable|]. split; [exact Hb|].
  split; [vm_compute; reflexivity|].
  destruct (layout_change_deferred_to_single_render_task (R := sampleRuntime)
              (notBound 2) layoutObserver sampleStore 100
              layoutWorld (VStr "ignored") VUndefined 1
              layoutWorld_reachable Hb)
    as (w' & H1 & H2 & _ & H3 & _ & _ & H4 & H5 & _);
    [vm_compute; reflexivity | vm_compute; reflexivity | vm_compute; reflexivity |].
  exists w'. split; [exact H1|]. split; [exact H2|].
  split; [apply H3; vm_compute; reflexivity|].
  split; [rewrite H4; vm_compute; reflexivity | rewrite H5; vm_compute; reflexivity].
Defined.

(** The layout binding after its first notification. *)
Lemma layoutNotified_reachable : reachable layoutStart layoutNotified.
Proof.
  pose (w1 := exec (dollar_bind (R := sampleRuntime) 0 1%nat None) layoutStart).
  pose (w2 := moved changedStore 150 w1).
  refine (reachable_step layoutStart w2 layoutNotified _
            (step_handleChange VUndefined VUndefined 1 w2 layoutNotified _));
    [|vm_compute; reflexivity].
  refine (reachable_step layoutStart w1 w2 _
            (step_environment w1 (observer w1) changedStore 150 _));
    [|vm_compute; discriminate].
  exact (reachable_step layoutStart layoutStart w1 (reachable_refl layoutStart)
           (step_bind 0 1%nat None layoutStart)).
Defined.

(** C7, as stated, fails. The layout binding shows ["one"] and has the
    render task of a change to ["changed"] pending when, at 160, its
    scope is back at ["one"] and it is notified: the value is the one
    the target holds, so the call neither cancels the pending task nor
    queues one. The tick then runs the task of the first change, whose
    stamp passes the guard, and writes ["changed"] over a source that
    reads ["one"]: the last notification within the frame has not
    won. And a bound [fromView] binding on a layout observer takes a
    notification in the source direction: it assigns the value and
    queues nothing. *)
Lemma layout_change_back_leaves_stale_task :
  let w := moved sampleStore 160 layoutNotified in
  let w' := worldOf (handleChange (VStr "one") (VStr "changed") 1 w) in
  let w'' := exec runRenderTask w' in
  (reachable layoutStart w /\
   isBound w = true /\
   0 < Z.land (otype (observer w)) ObserverType_Layout /\
   currentValue (observer w) = VStr "one" /\
   task (binding w) = Some 0%nat /\
   pending w = [mkTask 0%nat (RenderUpdate 150 (VStr "changed") 1)]) /\
  (handleChange (VStr "one") (VStr "changed") 1 w = Returned w' /\
   ~ In (CancelTask 0%nat) (events_since w w') /\
   existsb is_task_queued (events_since w w') = false /\
   pending w' = [mkTask 0%nat (RenderUpdate 150 (VStr "changed") 1)]) /\
  (filter is_target_write (events_since w' w'') = [SetValue (VStr "changed") 1] /\
   currentValue (observer w'') = VStr "changed" /\
   store w'' (scope (binding w'')) = VStr "one") /\
  (let v := newWorld (boundTo1 4 None) layoutObserver sampleStore 100 in
   let v' := worldOf (handleChange (VStr "typed") VUndefined 1 v) in
   isBound v = true /\
   0 < Z.land (otype (observer v)) ObserverType_Layout /\
   handleChange (VStr "typed") VUndefined 1 v = Returned v' /\
   events_since v v' = [Evaluate 2 (Some 1%nat) None; Assign 2 (Some 1%nat) (VStr "typed")] /\
   pending v' = []) /\
  ~ (forall (b0 : Binding) (o0 : Observer) (st0 : option ScopeRef -> Value)
            (t0 : Z) (w : World) (newValue previousValue : Value) (flags : Z),
        reachable (newWorld b0 o0 st0 t0) w ->
        isBound w = true ->
        0 < Z.land (otype (observer w)) ObserverType_Layout ->
        truthy (Z.land (adjustFlags (binding w) flags)
                       LifecycleFlags_updateTargetInstance) = true ->
        exists w',
          handleChange newValue previousValue flags w = Returned w' /\
          (forall old, task (binding w) = Some old ->
                       In (CancelTask old) (events_since w w')) /\
          existsb is_task_queued (events_since w w') = true).
Proof.
  intros w w' w''.
  assert (Hreach : reachable layoutStart w).
  { refine (reachable_step layoutStart layoutNotified w layoutNotified_reachable
              (step_environment layoutNotified (observer layoutNotified)
                                sampleStore 160 _)).
    vm_compute. discriminate. }
  assert (Hcall : handleChange (VStr "one") (VStr "changed") 1 w = Returned w')
    by (vm_compute; reflexivity).
  assert (Hqueued : existsb is_task_queued (events_since w w') = false)
    by (vm_compute; reflexivity).
  split; [|split; [|split; [|split]]].
  - split; [exact Hreach|]. repeat split; vm_compute; reflexivity.
  - split; [exact Hcall|]. split; [|split; [exact Hqueued | vm_compute; reflexivity]].
    vm_compute. intros H.
    repeat (destruct H as [H|H]; [discriminate H|]). exact H.
  - repeat split; vm_compute; reflexivity.
  - intros v v'. repeat split; vm_compute; reflexivity.
  - intros Hall.
    destruct (Hall (notBound 2) layoutObserver sampleStore 100 w
                   (VStr "one") (VStr "changed") 1 Hreach)
      as (x & Hx & _ & Hq); try (vm_compute; reflexivity).
    rewrite Hcall in Hx. injection Hx as <-.
    rewrite Hqueued in Hq. discriminate Hq.
Qed.

(** Binding the fresh node binding to scope 1 writes ["one"] in the
    call and queues the microtask. *)
Lemma bind_on_freshNodeWorld :
  isBound freshNodeWorld && scope_eqb (scope (binding freshNodeWorld)) (Some 1%nat) = false /\
  truthy (Z.land (mode (binding freshNodeWorld))
                 (Z.lor BindingMode_toView BindingMode_oneTime)) = true /\
  let w' := exec (dollar_bind 0 1%nat None) freshNodeWorld in
  filter is_target_write (events_since freshNodeWorld w') = [SetValue (VStr "one") 1] /\
  currentValue (observer w') = VStr "one" /\
  existsb is_microtask_queued (events_since freshNodeWorld w') = true.
Proof.
  split; [reflexivity|]. split; [reflexivity|].
  destruct (bind_pushes_eagerly_and_defers_for_node_observer (R := sampleRuntime)
              freshNodeWorld 0 1%nat None eq_refl eq_refl)
    as (H1 & H2 & H3 & _).
  repeat split; assumption.
Defined.

(** Binding again to scope 1 changes nothing; binding to scope 2
    unbinds first and leaves the binding bound to scope 2. *)
Lemma rebind_on_settledWorld :
  isBound (settledWorld 2) = true /\
  dollar_bind 0 1%nat None (settledWorld 2) = (tt, settledWorld 2) /\
  (let u := exec (dollar_unbind (Z.lor 0 LifecycleFlags_fromBind)) (settledWorld 2) in
   let w' := exec (dollar_bind 0 2%nat None) (settledWorld 2) in
   w' = exec (bindBody 0 2%nat None) u /\
   isBound u = false /\
   events_since (settledWorld 2) u = [Unsubscribe; Unobserve true] /\
   scope (binding w') = Some 2%nat /\
   isBound w' = true).
Proof.
  split; [reflexivity|].
  destruct (bind_same_scope_idempotent_other_scope_unbinds_first (R := sampleRuntime)
              (settledWorld 2) 0 1%nat None eq_refl) as [Hsame _].
  destruct (bind_same_scope_idempotent_other_scope_unbinds_first (R := sampleRuntime)
              (settledWorld 2) 0 2%nat None eq_refl) as [_ Hother].
  split; [apply Hsame; reflexivity|].
  intros u w'.
  destruct Hother as ((H1 & H2 & _ & _ & H5) & _ & H7 & _ & _ & _ & _ & H12);
    [discriminate|].
  split; [exact H1|]. split; [exact H2|]. split; [exact H5|].
  split; [exact H7|]. apply H12. vm_compute. discriminate.
Defined.

(** The fresh binding ignores a notification. *)
Lemma notification_on_freshNodeWorld :
  isBound freshNodeWorld = false /\
  handleChange (VStr "x") VUndefined 1 freshNodeWorld = Returned freshNodeWorld /\
  runBody (RenderUpdate 200 (VStr "x") 1) freshNodeWorld = (tt, freshNodeWorld).
Proof.
  split; [reflexivity|].
  destruct (unbound_binding_ignores_changes_and_render_tasks (R := sampleRuntime) freshNodeWorld eq_refl)
    as (H1 & H2 & _).
  split; [apply H1 | apply H2].
Defined.

(** C10, as stated, fails. [$bind] writes the target before it sets
    [isBound]; and the microtask that [$bind] queued is still
    pending after [$unbind] and, when it runs, writes the target of
    the unbound binding. *)
Lemma unbound_binding_still_written_through :
  let w0 := freshNodeWorld in
  let w1 := exec (dollar_bind 0 1%nat None) w0 in
  let w2 := exec (dollar_unbind 0) w1 in
  let w3 := exec runMicroTask w2 in
  (isBound w0 = false /\ step w0 w1 /\
   existsb is_target_write (events_since w0 w1) = true) /\
  (isBound w2 = false /\ step w2 w3 /\
   events_since w2 w3 = [Evaluate 0 (Some 1%nat) None; SetValue (VStr "one") 1]) /\
  ~ (forall w w' : World,
        step w w' -> isBound w = false ->
        existsb is_target_write (events_since w w') = false).
Proof.
  intros w0 w1 w2 w3.
  assert (H2 : isBound w2 = false /\ step w2 w3 /\
               events_since w2 w3
               = [Evaluate 0 (Some 1%nat) None; SetValue (VStr "one") 1]).
  { split; [reflexivity|]. split; [apply step_micro | reflexivity]. }
  split; [|split; [exact H2|]].
  - split; [reflexivity|]. split; [apply step_bind | reflexivity].
  - intros Hall. destruct H2 as (Hb & Hs & Hev).
    specialize (Hall w2 w3 Hs Hb). rewrite Hev in Hall. discriminate.
Qed.

End BindingExamples.

Section RouterExamples.
Import Regex Router.
Local Open Scope nat_scope.
Local Open Scope string_scope.

(** The test pair "can load / can NOT load a direct route by name
    which is listed as a dependency", and the same on a root that
    also configures a route of its own. *)
Lemma a01_by_name_as_dependency :
  (load ConfiguredFirst dependencyOnly 0 "a01" = Resolved [0; 1]%nat /\
   load ConfiguredOnly dependencyOnly 0 "a01"
   = Failed (mkRouteMatchError "a01" "root") /\
   rejectedWith (load ConfiguredOnly dependencyOnly 0 "a01") sampleWording
                (didNotMatch "a01" "root") = true) /\
  (load ConfiguredFirst (dependencyBesideRoute None) 0 "a01" = Resolved [0; 1]%nat /\
   load ConfiguredOnly (dependencyBesideRoute None) 0 "a01"
   = Failed (mkRouteMatchError "a01" "root") /\
   rejectedWith (load ConfiguredOnly (dependencyBesideRoute None) 0 "a01")
                sampleWording (didNotMatch "a01" "root") = true).
Proof.
  split.
  - destruct (dependency_loaded_by_name_under_configured_first_only
                dependencyOnly 0%nat 1%nat sampleWording)
      as ((k & Hk & _ & _ & _ & Hd) & Honly & Hmsg).
    + reflexivity.
    + left. reflexivity.
    + reflexivity.
    + reflexivity.
    + intros n [].
    + intros [E|[]]. discriminate E.
    + reflexivity.
    + split; [|split; [exact Honly | exact Hmsg]].
      assert (E : k = 1%nat) by (apply Hd; intros k' [<-|[]] _; reflexivity).
      subst k. exact Hk.
  - destruct (dependency_loaded_by_name_under_configured_first_only
                (dependencyBesideRoute None) 0%nat 1%nat sampleWording)
      as ((k & Hk & _ & _ & _ & Hd) & Honly & Hmsg).
    + reflexivity.
    + left. reflexivity.
    + reflexivity.
    + reflexivity.
    + intros n [<-|[]]. discriminate.
    + intros [E|[]]. discriminate E.
    + reflexivity.
    + split; [|split; [exact Honly | exact Hmsg]].
      assert (E : k = 1%nat) by (apply Hd; intros k' [<-|[]] _; reflexivity).
      subst k. exact Hk.
Defined.

(** C1, as stated, fails in four ways. The root configures another
    component at the name of its dependency [A01]: loading ['a01']
    resolves, to that component, under ['configured-only'] too. The
    dependency [A01] declares the path ['a']: loading ['a01'] is
    rejected under ['configured-first']. The root is its own
    dependency: loading its name is rejected under
    ['configured-first']. The dependency is named ['a/b']: loading
    that is rejected under ['configured-first'], for ['a']. *)
Lemma dependency_not_always_loaded_by_name :
  (In 1%nat (dependencies (nameTakenByAnother 0)) /\
   isConfigured nameTakenByAnother 0 1 = false /\
   load ConfiguredOnly nameTakenByAnother 0 "a01" = Resolved [0; 2]%nat) /\
  (In 1%nat (dependencies (dependencyWithPath 0)) /\
   isConfigured dependencyWithPath 0 1 = false /\
   load ConfiguredFirst dependencyWithPath 0 "a01"
   = Failed (mkRouteMatchError "a01" "root")) /\
  (In 0%nat (dependencies (selfDependent 0)) /\
   isConfigured selfDependent 0 0 = false /\
   load ConfiguredFirst selfDependent 0 "root"
   = Failed (mkRouteMatchError "root" "root")) /\
  (In 1%nat (dependencies (slashInName 0)) /\
   isConfigured slashInName 0 1 = false /\
   load ConfiguredFirst slashInName 0 "a/b"
   = Failed (mkRouteMatchError "a" "root")) /\
  ~ (forall (reg : Registry) (root d : ComponentId) (wd : Wording),
        wordingOk wd = true ->
        In d (dependencies (reg root)) ->
        isConfigured reg root d = false ->
        (exists trail,
            load ConfiguredFirst reg root (name (reg d)) = Resolved trail) /\
        rejectedWith (load ConfiguredOnly reg root (name (reg d))) wd
                     (didNotMatch (name (reg d)) (name (reg root))) = true).
Proof.
  split; [|split; [|split; [|split]]];
    try (split; [now left | split; reflexivity]).
  intros Hall.
  destruct (Hall nameTakenByAnother 0%nat 1%nat sampleWording
                 eq_refl (or_introl eq_refl) eq_refl) as [_ H].
  discriminate.
Qed.

(** The test pair "can NOT load a configured child route with
    indirect path by name", and the same on a root with a further
    route and a dependency. *)
Lemma a01_by_name_with_indirect_path :
  (rejectedWith (load ConfiguredFirst configuredWithPath 0 "a01") sampleWording
                (didNotMatch "a01" "root") = true /\
   rejectedWith (load ConfiguredOnly configuredWithPath 0 "a01") sampleWording
                (didNotMatch "a01" "root") = true) /\
  (load ConfiguredFirst configuredBesideRoute 0 "a01"
   = Failed (mkRouteMatchError "a01" "root") /\
   load ConfiguredOnly configuredBesideRoute 0 "a01"
   = Failed (mkRouteMatchError "a01" "root")).
Proof.
  split; split.
  - apply (configured_child_with_path_not_loaded_by_name
             configuredWithPath 0%nat 1%nat "a" ConfiguredFirst sampleWording);
      try reflexivity; try discriminate.
    + intros c [<-|[]] H. now contradiction H.
    + intros _ k [].
  - apply (configured_child_with_path_not_loaded_by_name
             configuredWithPath 0%nat 1%nat "a" ConfiguredOnly sampleWording);
      try reflexivity; try discriminate.
    intros c [<-|[]] H. now contradiction H.
  - apply (configured_child_with_path_not_loaded_by_name
             configuredBesideRoute 0%nat 1%nat "a" ConfiguredFirst sampleWording);
      try reflexivity; try discriminate.
    + intros c [<-|[<-|[]]] H; [now contradiction H | discriminate].
    + intros _ k [<-|[]] _. discriminate.
  - apply (configured_child_with_path_not_loaded_by_name
             configuredBesideRoute 0%nat 1%nat "a" ConfiguredOnly sampleWording);
      try reflexivity; try discriminate.
    intros c [<-|[<-|[]]] H; [now contradiction H | discriminate].
Defined.

(** C5, as stated, fails in four ways. The root configures, beside
    [A01], another component at ['a01']: loading ['a01'] resolves in
    both routing modes. A dependency of the root bears the name of
    [A01]: loading ['a01'] resolves under ['configured-first']. The
    component is named ['a/b'] and declares the path ['a']: loading
    ['a/b'] enters it by its path and is rejected for ['b'], with
    another message. The component declares its name as its path:
    loading it resolves. *)
Lemma configured_child_with_path_sometimes_loaded_by_name :
  (isConfigured configuredBesideAnother 0 1 = true /\
   path (configuredBesideAnother 1) = Some "a" /\
   load ConfiguredFirst configuredBesideAnother 0 "a01" = Resolved [0; 2]%nat /\
   load ConfiguredOnly configuredBesideAnother 0 "a01" = Resolved [0; 2]%nat) /\
  (isConfigured configuredBesideNamesake 0 1 = true /\
   path (configuredBesideNamesake 1) = Some "a" /\
   load ConfiguredFirst configuredBesideNamesake 0 "a01" = Resolved [0; 2]%nat) /\
  (isConfigured configuredSlashInName 0 1 = true /\
   path (configuredSlashInName 1) = Some "a" /\
   (forall mode,
       load mode configuredSlashInName 0 "a/b"
       = Failed (mkRouteMatchError "b" "root/a/b") /\
       rejectedWith (load mode configuredSlashInName 0 "a/b") sampleWording
                    (didNotMatch "a/b" "root") = false)) /\
  (isConfigured (rootWith [ComponentChild 1%nat] [] (Some "a01")) 0 1 = true /\
   path (rootWith [ComponentChild 1%nat] [] (Some "a01") 1) = Some "a01" /\
   forall mode,
     load mode (rootWith [ComponentChild 1%nat] [] (Some "a01")) 0 "a01"
     = Resolved [0; 1]%nat) /\
  ~ (forall (reg : Registry) (root d : ComponentId) (p : string)
            (mode : RoutingMode) (wd : Wording),
        wordingOk wd = true ->
        isConfigured reg root d = true ->
        path (reg d) = Some p ->
        rejectedWith (load mode reg root (name (reg d))) wd
                     (didNotMatch (name (reg d)) (name (reg root))) = true).
Proof.
  split; [|split; [|split; [|split]]].
  - split; [reflexivity|]. repeat split; reflexivity.
  - split; [reflexivity|]. repeat split; reflexivity.
  - split; [reflexivity|]. split; [reflexivity|].
    intros [|]; split; vm_compute; reflexivity.
  - split; [reflexivity|]. split; [reflexivity|]. intros [|]; reflexivity.
  - intros Hall.
    specialize (Hall configuredBesideAnother 0%nat 1%nat "a" ConfiguredOnly
                     sampleWording eq_refl eq_refl eq_refl).
    discriminate.
Qed.

(** The test pair "can NOT load a direct route by indirect path when
    listed only as a dependency", and the same on a root that also
    configures a route of its own. *)
Lemma a_by_path_as_dependency :
  (rejectedWith (load ConfiguredFirst dependencyWithPath 0 "a") sampleWording
                (didNotMatch "a" "root") = true /\
   rejectedWith (load ConfiguredOnly dependencyWithPath 0 "a") sampleWording
                (didNotMatch "a" "root") = true) /\
  (load ConfiguredFirst (dependencyBesideRoute (Some "a")) 0 "a"
   = Failed (mkRouteMatchError "a" "root") /\
   load ConfiguredOnly (dependencyBesideRoute (Some "a")) 0 "a"
   = Failed (mkRouteMatchError "a" "root")).
Proof.
  split; split.
  - apply (dependency_not_loaded_by_its_path
             dependencyWithPath 0%nat 1%nat "a" ConfiguredFirst sampleWording);
      try reflexivity.
    + left. reflexivity.
    + intros n [].
    + intros _ k [<-|[]]. discriminate.
  - apply (dependency_not_loaded_by_its_path
             dependencyWithPath 0%nat 1%nat "a" ConfiguredOnly sampleWording);
      try reflexivity.
    + left. reflexivity.
    + intros n [].
    + discriminate.
  - apply (dependency_not_loaded_by_its_path
             (dependencyBesideRoute (Some "a")) 0%nat 1%nat "a"
             ConfiguredFirst sampleWording);
      try reflexivity.
    + left. reflexivity.
    + intros n [<-|[]]. discriminate.
    + intros _ k [<-|[]]. discriminate.
  - apply (dependency_not_loaded_by_its_path
             (dependencyBesideRoute (Some "a")) 0%nat 1%nat "a"
             ConfiguredOnly sampleWording);
      try reflexivity.
    + left. reflexivity.
    + intros n [<-|[]]. discriminate.
    + discriminate.
Defined.

(** C6, as stated, fails in three ways. [A01] is only a dependency of
    the root and declares the path ['a']. The root configures another
    component at ['a']: loading ['a'] resolves in both routing modes.
    Another dependency of the root is named ['a']: loading ['a']
    resolves under ['configured-first']. [A01] declares the path
    ['a/b'] instead: loading it is rejected for its first segment
    ['a'], and the message does not match the pattern for ['a/b']. *)
Lemma dependency_path_routed_to_another_component :
  (In 1%nat (dependencies (pathTakenByAnother 0)) /\
   isConfigured pathTakenByAnother 0 1 = false /\
   path (pathTakenByAnother 1) = Some "a" /\
   load ConfiguredFirst pathTakenByAnother 0 "a" = Resolved [0; 2]%nat /\
   load ConfiguredOnly pathTakenByAnother 0 "a" = Resolved [0; 2]%nat) /\
  (In 1%nat (dependencies (pathIsNameOfAnother 0)) /\
   isConfigured pathIsNameOfAnother 0 1 = false /\
   path (pathIsNameOfAnother 1) = Some "a" /\
   load ConfiguredFirst pathIsNameOfAnother 0 "a" = Resolved [0; 2]%nat) /\
  (In 1%nat (dependencies (dependencyWithSlashPath 0)) /\
   isConfigured dependencyWithSlashPath 0 1 = false /\
   path (dependencyWithSlashPath 1) = Some "a/b" /\
   forall mode,
     load mode dependencyWithSlashPath 0 "a/b"
     = Failed (mkRouteMatchError "a" "root") /\
     rejectedWith (load mode dependencyWithSlashPath 0 "a/b") sampleWording
                  (didNotMatch "a/b" "root") = false) /\
  ~ (forall (reg : Registry) (root d : ComponentId) (p : string)
            (mode : RoutingMode) (wd : Wording),
        wordingOk wd = true ->
        In d (dependencies (reg root)) ->
        isConfigured reg root d = false ->
        path (reg d) = Some p ->
        rejectedWith (load mode reg root p) wd
                     (didNotMatch p (name (reg root))) = true).
Proof.
  split; [|split; [|split]].
  - split; [now left|]. repeat split; reflexivity.
  - split; [now left|]. repeat split; reflexivity.
  - split; [now left|]. split; [reflexivity|]. split; [reflexivity|].
    intros [|]; split; vm_compute; reflexivity.
  - intros Hall.
    specialize (Hall pathTakenByAnother 0%nat 1%nat "a" ConfiguredOnly sampleWording
                     eq_refl (or_introl eq_refl) eq_refl eq_refl).
    discriminate.
Qed.

(** The tests "can load a configured child route with direct path and
    explicit component", with [A01] among the dependencies or not, in
    both routing modes. *)
Example direct_path_explicit_component :
  forallb (fun r => match r with Resolved [0; 1] => true | _ => false end)
    [ load ConfiguredFirst (rootWith [PathChild "a" 1] [1] None) 0 "a";
      load ConfiguredOnly (rootWith [PathChild "a" 1] [1] None) 0 "a";
      load ConfiguredFirst (rootWith [PathChild "a" 1] [] None) 0 "a";
      load ConfiguredOnly (rootWith [PathChild "a" 1] [] None) 0 "a" ] = true.
Proof. reflexivity. Qed.

(** The tests "can load a configured child route with indirect path
    and explicit component". *)
Example indirect_path_explicit_component :
  forallb (fun r => match r with Resolved [0; 1] => true | _ => false end)
    [ load ConfiguredFirst (rootWith [ComponentChild 1] [1] (Some "a")) 0 "a";
      load ConfiguredOnly (rootWith [ComponentChild 1] [1] (Some "a")) 0 "a";
      load ConfiguredFirst (rootWith [ComponentChild 1] [] (Some "a")) 0 "a";
      load ConfiguredOnly (rootWith [ComponentChild 1] [] (Some "a")) 0 "a" ] = true.
Proof. reflexivity. Qed.

(** The tests "can load a configured child route by name". *)
Example configured_child_by_name :
  load ConfiguredFirst (rootWith [ComponentChild 1] [] None) 0 "a01" = Resolved [0; 1] /\
  load ConfiguredOnly (rootWith [ComponentChild 1] [] None) 0 "a01" = Resolved [0; 1].
Proof. split; reflexivity. Qed.

(** A path that comes back to [A11] through a declared dependency is
    rejected at the same place. *)
Example circular_dependencies_rejected :
  load ConfiguredFirst circularDependencies 0 "a11/b11/a11"
    = Failed (mkRouteMatchError "a11" "root/a11/b11").
Proof. reflexivity. Qed.

(** The test "can navigate to deep dependencies as long as they are
    declared". *)
Example deep_dependencies_resolve :
  load ConfiguredFirst deepDependencies 0 "a11/b11/c01" = Resolved [0; 1; 2; 3]%nat.
Proof. reflexivity. Qed.

(** A path that comes back to [A11] through a declared dependency,
    and the test "can NOT navigate to deep dependencies that are
    indirectly circular", where [B11] has no route of that name. *)
Lemma a11_b11_a11_rejected :
  (resolve ConfiguredFirst circularDependencies [0] 0 ["a11"; "b11"]
   = Resolved [0; 1; 2] /\
   find (answers ConfiguredFirst circularDependencies "a11")
        (routeNodes circularDependencies 2)
   = Some (mkRouteNode "a11" 1 false) /\
   load ConfiguredFirst circularDependencies 0 "a11/b11/a11"
   = Failed (mkRouteMatchError "a11" "root/a11/b11") /\
   rejectedWith (load ConfiguredFirst circularDependencies 0 "a11/b11/a11")
                sampleWording (didNotMatch "a11" "root/a11/b11") = true) /\
  (load ConfiguredFirst deepDependencies 0 "a11/b11/a11"
   = Failed (mkRouteMatchError "a11" "root/a11/b11") /\
   rejectedWith (load ConfiguredFirst deepDependencies 0 "a11/b11/a11")
                sampleWording (didNotMatch "a11" "root/a11/b11") = true).
Proof.
  split.
  - split; [reflexivity|]. split; [reflexivity|].
    destruct (revisiting_an_ancestor_is_rejected
                circularDependencies ConfiguredFirst 0%nat sampleWording
                "a11/b11/a11" ["a11"; "b11"] 1%nat [] [0; 1; 2]%nat)
      as (H1 & H2 & _); try reflexivity.
    + right. left. reflexivity.
    + intros n [<-|[]] _. right. left. reflexivity.
    + split; [exact H1 | exact H2].
  - destruct (revisiting_an_ancestor_is_rejected
                deepDependencies ConfiguredFirst 0%nat sampleWording
                "a11/b11/a11" ["a11"; "b11"] 1%nat [] [0; 1; 2]%nat)
      as (H1 & H2 & _); try reflexivity.
    + right. left. reflexivity.
    + intros n [<-|[]] H. discriminate.
    + split; [exact H1 | exact H2].
Defined.

(** C2, as stated, fails: in ['a11/b11/a11'] the last segment is the
    name of [A11], which the path has entered, but [B11] configures
    the path ['a11'] for [C01], and loading resolves, to
    [root/a11/b11/c01]. *)
Lemma ancestor_name_routed_elsewhere :
  resolve ConfiguredFirst ancestorNameRouted [0] 0 ["a11"; "b11"]
  = Resolved [0; 1; 2] /\
  In 1 [0; 1; 2] /\
  name (ancestorNameRouted 1) = "a11" /\
  load ConfiguredFirst ancestorNameRouted 0 "a11/b11/a11"
  = Resolved [0; 1; 2; 3] /\
  ~ (forall (reg : Registry) (mode : RoutingMode) (root : ComponentId)
            (wd : Wording) (p : string) (pre : list string) (a : ComponentId)
            (rest : list string) (trail : list ComponentId),
        wordingOk wd = true ->
        splitPath p = (pre ++ name (reg a) :: rest)%list ->
        resolve mode reg [root] root pre = Resolved trail ->
        In a trail ->
        rejectedWith (load mode reg root p) wd
                     (didNotMatch (name (reg a)) (friendlyPath reg trail)) = true).
Proof.
  split; [reflexivity|]. split; [right; left; reflexivity|].
  split; [reflexivity|]. split; [reflexivity|].
  intros Hall.
  specialize (Hall ancestorNameRouted ConfiguredFirst 0 sampleWording
                   "a11/b11/a11" ["a11"; "b11"] 1 [] [0; 1; 2]
                   eq_refl eq_refl eq_refl (or_intror (or_introl eq_refl))).
  discriminate.
Qed.

End RouterExamples.

(** * Properties of the helpers of the router configuration tests *)

Section RouterConfigSpecProperties.
Import RouterConfigSpec.
Local Open Scope string_scope.

Lemma string_append_assoc (a b c : string) : (a ++ b) ++ c = a ++ (b ++ c).
Proof.
  induction a as [|x a IH]; [reflexivity | cbn; now rewrite IH].
Qed.

Lemma concat_empty_cons (x : string) (l : list string) :
  String.concat "" (x :: l) = x ++ String.concat "" l.
Proof.
  destruct l; cbn; [now rewrite append_empty_r | reflexivity].
Qed.

Lemma vpLoop_appends (steps i : nat) (template : string) :
  vpLoop steps i template
  = template ++ String.concat "" (map namedViewport (seq i steps)).
Proof.
  revert i template. induction steps as [|k IH]; intros i template.
  - cbn. now rewrite append_empty_r.
  - cbn [vpLoop seq map]. rewrite IH, concat_empty_cons.
    apply string_append_assoc.
Qed.

(** X1. Unless [count] is 1, [vp(count)] is the viewports named [$0]
    to [$(count-1)], in this order and nothing else: no viewport at
    all when [count] is 0 or negative. *)
Theorem vp_names_viewports_in_order (count : Z) :
  count <> 1%Z ->
  vp count = String.concat "" (map namedViewport (seq 0 (Z.to_nat count))) /\
  ((count <= 0)%Z -> vp count = "").
Proof.
  intros Hne. unfold vp.
  destruct (Z.eqb_spec count 1) as [->|_]; [contradiction|].
  rewrite vpLoop_appends. split; [reflexivity|].
  intros Hle. destruct count; try lia; reflexivity.
Qed.

Lemma nonEmpty_append_l (a b : string) :
  nonEmpty a = true -> nonEmpty (a ++ b) = true.
Proof.
  destruct a; [discriminate | reflexivity].
Qed.

Lemma nonEmpty_append_r (a b : string) :
  nonEmpty b = true -> nonEmpty (a ++ b) = true.
Proof.
  destruct a; [trivial | reflexivity].
Qed.

Lemma label_nonEmpty (prefix component call : string) :
  nonEmpty (label prefix component call) = true.
Proof.
  unfold label. now apply nonEmpty_append_r, nonEmpty_append_l.
Qed.

Lemma prependCall_nonEmpty (prefix component call : string) :
  nonEmpty (prependCall prefix component call) = nonEmpty call.
Proof.
  unfold prependCall, nonEmpty at 2.
  destruct (String.eqb call ""); [reflexivity | apply label_nonEmpty].
Qed.

(** X2. [prepend] yields one value for each call, the empty string
    exactly where the call is the empty string; its other values are
    the labels [prefix.component.call] of the other calls, in their
    order. *)
Theorem prepend_keeps_empty_slots (prefix component : string) (calls : list string) :
  List.length (prepend prefix component calls) = List.length calls /\
  map nonEmpty (prepend prefix component calls) = map nonEmpty calls /\
  filter nonEmpty (prepend prefix component calls)
  = map (label prefix component) (filter nonEmpty calls).
Proof.
  unfold prepend. split; [apply length_map|]. split.
  - rewrite map_map. apply map_ext. intros. apply prependCall_nonEmpty.
  - induction calls as [|call calls IH]; [reflexivity|].
    cbn [map filter]. rewrite prependCall_nonEmpty.
    destruct (nonEmpty call) eqn:Hc; [|exact IH].
    cbn [map]. rewrite IH. f_equal.
    unfold prependCall. unfold nonEmpty in Hc.
    now destruct (String.eqb call "").
Qed.

(** X3. [prependDeferrable] is [prepend] with the hooks of the
    juncture put before the calls: [canLoad] and [load] for ['none'],
    [load] for ['guard-hooks'], none for any other juncture. *)
Theorem prependDeferrable_is_prepend_with_hooks
    (prefix component deferUntil : string) (calls : list string) :
  prependDeferrable prefix component deferUntil calls
  = prepend prefix component
      ((if String.eqb deferUntil "none" then ["canLoad"; "load"]
        else if String.eqb deferUntil "guard-hooks" then ["load"]
        else []) ++ calls)%list.
Proof.
  unfold prependDeferrable, prepend. rewrite map_app.
  destruct (String.eqb deferUntil "none"); [reflexivity|].
  destruct (String.eqb deferUntil "guard-hooks"); reflexivity.
Qed.

(** *** [interleave] *)

Lemma generatorAt_middle (done todo : list (list string)) (g : list string) :
  generatorAt (done ++ g :: todo) (Z.of_nat (List.length done)) = Some g.
Proof.
  unfold generatorAt.
  destruct (Z.ltb_spec (Z.of_nat (List.length done)) 0); [lia|].
  rewrite Nat2Z.id, nth_error_app2, Nat.sub_diag by lia. reflexivity.
Qed.

Lemma splice1_middle (done todo : list (list string)) (g : list string) :
  splice1 (done ++ g :: todo) (Z.of_nat (List.length done)) = (done ++ todo)%list.
Proof.
  unfold splice1. rewrite Nat2Z.id.
  rewrite firstn_app, firstn_all, Nat.sub_diag. cbn [firstn].
  rewrite skipn_app, skipn_all2 by lia.
  replace (S (List.length done) - List.length done)%nat with 1%nat by lia.
  cbn. now rewrite app_nil_r.
Qed.

Lemma advance_middle (done todo : list (list string)) (g rest : list string) :
  advance (done ++ g :: todo) (Z.of_nat (List.length done)) rest
  = ((done ++ [rest]) ++ todo)%list.
Proof.
  unfold advance. rewrite Nat2Z.id.
  rewrite firstn_app, firstn_all, Nat.sub_diag. cbn [firstn].
  rewrite skipn_app, skipn_all2 by lia.
  replace (S (List.length done) - List.length done)%nat with 1%nat by lia.
  cbn. now rewrite app_nil_r, <- app_assoc.
Qed.

(** The [for] loop from the generator at [i] on: it yields the values
    of [round] and leaves its generators, and the [while] loop goes
    on. *)
Lemma forLoop_round (todo done : list (list string)) (fuel : nat) :
  forLoop (List.length todo + S fuel) (done ++ todo)
          (Z.of_nat (List.length done))
          (Z.of_nat (List.length done + List.length todo))
  = match whileLoop (forLoop fuel) (done ++ snd (round todo)) with
    | Done more => Done (fst (round todo) ++ more)
    | TypeError => TypeError
    | OutOfFuel => OutOfFuel
    end.
Proof.
  revert done. induction todo as [|g todo IH]; intros done.
  - cbn [List.length Nat.add forLoop round fst snd]. rewrite Nat.add_0_r.
    rewrite Z.ltb_irrefl, app_nil_r.
    now destruct (whileLoop (forLoop fuel) done).
  - cbn [List.length Nat.add forLoop].
    destruct (Z.ltb_spec (Z.of_nat (List.length done))
                (Z.of_nat (List.length done + S (List.length todo)))); [|lia].
    rewrite generatorAt_middle.
    destruct g as [|value rest].
    + rewrite splice1_middle.
      replace (Z.of_nat (List.length done) - 1 + 1)%Z
        with (Z.of_nat (List.length done)) by lia.
      replace (Z.of_nat (List.length done + S (List.length todo)) - 1)%Z
        with (Z.of_nat (List.length done + List.length todo)) by lia.
      rewrite IH. cbn [round]. now destruct (round todo).
    + rewrite advance_middle.
      replace (Z.of_nat (List.length done) + 1)%Z
        with (Z.of_nat (List.length (done ++ [rest])))
        by (rewrite length_app; cbn; lia).
      replace (Z.of_nat (List.length done + S (List.length todo)))
        with (Z.of_nat (List.length (done ++ [rest]) + List.length todo))
        by (rewrite length_app; cbn; lia).
      rewrite IH. cbn [round].
      destruct (round todo) as [values left]. cbn [fst snd].
      rewrite <- app_assoc. cbn [app].
      destruct (whileLoop (forLoop fuel) (done ++ rest :: left));
        destruct (nonEmpty value); reflexivity.
Qed.

Lemma round_polls (generators : list (list string)) :
  (polls (snd (round generators)) + List.length generators = polls generators)%nat.
Proof.
  unfold polls. induction generators as [|g generators IH]; [reflexivity|].
  cbn [round]. destruct (round generators) as [values left]. cbn [snd] in *.
  destruct g as [|value rest]; cbn [snd List.concat List.length];
    rewrite ?length_app; cbn [List.length]; lia.
Qed.

Lemma interleave_roundRobin (rounds : nat) (generators : list (list string)) (fuel : nat) :
  (polls generators <= rounds)%nat ->
  (2 * polls generators + 1 <= fuel)%nat ->
  interleave fuel generators = Done (roundRobin rounds generators).
Proof.
  revert generators fuel.
  induction rounds as [|k IH]; intros generators fuel Hk Hfuel.
  - destruct generators; [reflexivity|]. unfold polls in Hk. cbn in Hk. lia.
  - destruct generators as [|g generators]; [reflexivity|].
    set (gs := g :: generators) in *.
    assert (Hn : (1 <= List.length gs)%nat) by (subst gs; cbn; lia).
    pose proof (round_polls gs) as Hp.
    unfold interleave, whileLoop.
    destruct (Z.ltb_spec 0 (Z.of_nat (List.length gs))); [|lia].
    replace fuel with (List.length gs + S (fuel - List.length gs - 1))%nat by lia.
    change (forLoop (List.length gs + S (fuel - List.length gs - 1)) gs 0
                    (Z.of_nat (List.length gs)))
      with (forLoop (List.length gs + S (fuel - List.length gs - 1)) ([] ++ gs)
                    (Z.of_nat (List.length (@nil (list string))))
                    (Z.of_nat (List.length (@nil (list string)) + List.length gs))).
    rewrite forLoop_round. cbn [app].
    fold (interleave (fuel - List.length gs - 1) (snd (round gs))).
    rewrite (IH (snd (round gs))) by lia.
    subst gs. reflexivity.
Qed.

Lemma roundRobin_more_rounds (rounds : nat) (generators : list (list string)) :
  (polls generators <= rounds)%nat ->
  roundRobin rounds generators = roundRobin (polls generators) generators.
Proof.
  intros H.
  assert (E : Done (roundRobin rounds generators)
              = Done (roundRobin (polls generators) generators)).
  { rewrite <- (interleave_roundRobin rounds generators (enough generators) H)
      by (unfold enough; lia).
    apply interleave_roundRobin; unfold enough; lia. }
  now injection E.
Qed.

(** X4. With enough fuel ([2 * polls + 1] turns of the loop are
    enough) [interleave] comes to its end, never reading a generator
    that is not there, and what it yields is the generators taken round
    after round: of each round the first value of every generator that
    has one, in the order of the arguments, the empty strings left
    out. *)
Theorem interleave_is_round_robin (fuel : nat) (generators : list (list string)) :
  (enough generators <= fuel)%nat ->
  interleave fuel generators = Done (roundRobin (polls generators) generators).
Proof.
  intros H. apply interleave_roundRobin; [lia | exact H].
Qed.

Lemma round_permutation (generators : list (list string)) :
  Permutation (fst (round generators)
                 ++ filter nonEmpty (List.concat (snd (round generators))))
              (filter nonEmpty (List.concat generators)).
Proof.
  induction generators as [|g generators IH]; [constructor|].
  cbn [round]. destruct (round generators) as [values left]. cbn [fst snd] in *.
  destruct g as [|value rest]; [exact IH|].
  cbn [fst snd List.concat app filter]. rewrite !filter_app.
  assert (Hp : Permutation (values ++ filter nonEmpty rest
                              ++ filter nonEmpty (List.concat left))
                           (filter nonEmpty rest
                              ++ filter nonEmpty (List.concat generators))).
  { rewrite Permutation_app_swap_app. now apply Permutation_app_head. }
  destruct (nonEmpty value); cbn [app]; [constructor|]; exact Hp.
Qed.

Lemma roundRobin_permutation (rounds : nat) (generators : list (list string)) :
  (polls generators <= rounds)%nat ->
  Permutation (roundRobin rounds generators)
              (filter nonEmpty (List.concat generators)).
Proof.
  revert generators. induction rounds as [|k IH]; intros generators Hk.
  - destruct generators; [constructor|]. unfold polls in Hk. cbn in Hk. lia.
  - destruct generators as [|g generators]; [constructor|].
    set (gs := g :: generators) in *.
    pose proof (round_polls gs) as Hp.
    assert (Hn : (1 <= List.length gs)%nat) by (subst gs; cbn; lia).
    change (roundRobin (S k) gs)
      with (fst (round gs) ++ roundRobin k (snd (round gs)))%list.
    rewrite (IH (snd (round gs))) by lia.
    apply round_permutation.
Qed.

(** X5. [interleave] yields each value of each generator once, the
    empty strings apart: what it yields is a permutation of the
    non-empty values of its arguments. *)
Theorem interleave_yields_every_value_once (generators : list (list string)) :
  exists values,
    interleave (enough generators) generators = Done values /\
    Permutation values (filter nonEmpty (List.concat generators)).
Proof.
  exists (roundRobin (polls generators) generators). split.
  - apply interleave_roundRobin; unfold enough; lia.
  - now apply roundRobin_permutation.
Qed.

Lemma subsequence_nil_l (whole : list string) : subsequence [] whole.
Proof.
  induction whole; constructor; assumption.
Qed.

Lemma subsequence_app (a b c d : list string) :
  subsequence a b -> subsequence c d -> subsequence (a ++ c) (b ++ d).
Proof.
  intros H Hcd. induction H; cbn.
  - exact Hcd.
  - now apply subsequence_skip.
  - now apply subsequence_keep.
Qed.

Lemma round_keeps_order (generators : list (list string)) (g : list string) :
  In g generators ->
  match g with
  | [] => True
  | value :: rest =>
      subsequence (filter nonEmpty [value]) (fst (round generators)) /\
      In rest (snd (round generators))
  end.
Proof.
  induction generators as [|h generators IH]; intros Hin; [contradiction|].
  cbn [round]. destruct (round generators) as [values left]. cbn [fst snd] in *.
  destruct Hin as [->|Hin].
  - destruct g as [|value rest]; [exact I|]. cbn [fst snd filter].
    split; [|now left].
    destruct (nonEmpty value); [constructor|]; apply subsequence_nil_l.
  - specialize (IH Hin). destruct g as [|value rest]; [exact I|].
    destruct IH as [Hs Hi].
    destruct h as [|hv hrest]; cbn [fst snd]; [now split|].
    split; [|now right].
    destruct (nonEmpty hv); [constructor|]; exact Hs.
Qed.

Lemma roundRobin_keeps_order (rounds : nat) (generators : list (list string))
      (g : list string) :
  (polls generators <= rounds)%nat ->
  In g generators ->
  subsequence (filter nonEmpty g) (roundRobin rounds generators).
Proof.
  revert generators g. induction rounds as [|k IH]; intros generators g Hk Hin.
  - destruct generators; [contradiction|]. unfold polls in Hk. cbn in Hk. lia.
  - destruct generators as [|h generators]; [contradiction|].
    set (gs := h :: generators) in *.
    pose proof (round_polls gs) as Hp.
    assert (Hn : (1 <= List.length gs)%nat) by (subst gs; cbn; lia).
    change (roundRobin (S k) gs)
      with (fst (round gs) ++ roundRobin k (snd (round gs)))%list.
    pose proof (round_keeps_order gs g Hin) as Hr.
    destruct g as [|value rest]; [apply subsequence_nil_l|].
    destruct Hr as [Hs Hi].
    change (value :: rest) with ([value] ++ rest)%list. rewrite filter_app.
    apply subsequence_app; [exact Hs|].
    apply IH; [lia | exact Hi].
Qed.

(** X6. [interleave] keeps the order of each generator: the non-empty
    values of any of its arguments are yielded in the order in which
    that argument yields them. *)
Theorem interleave_keeps_order_of_each_generator
    (generators : list (list string)) (g : list string) :
  In g generators ->
  exists values,
    interleave (enough generators) generators = Done values /\
    subsequence (filter nonEmpty g) values.
Proof.
  intros Hin. exists (roundRobin (polls generators) generators). split.
  - apply interleave_roundRobin; unfold enough; lia.
  - now apply roundRobin_keeps_order.
Qed.

(** *** [join] *)

Lemma split_first_nonEmpty (c : ascii) (x : string) :
  Ascii.eqb c "@" = false ->
  exists first rest, split "@" (String c x) = String c first :: rest.
Proof.
  intros Hc. cbn [split]. rewrite Hc.
  destruct (split "@" x) as [|s rest]; eauto.
Qed.

Lemma kept_iff (x : string) :
  kept x = true <-> exists c rest, x = String c rest /\ c <> "@"%char.
Proof.
  split.
  - destruct x as [|c x]; [discriminate|]. intros H.
    exists c, x. split; [reflexivity|]. intros ->.
    unfold kept in H. cbn in H. discriminate.
  - intros (c & rest & -> & Hc). apply Ascii.eqb_neq in Hc.
    destruct (split_first_nonEmpty c rest Hc) as (first & more & Hs).
    unfold kept. rewrite Hs. reflexivity.
Qed.

(** X7. [join] drops exactly the parts that are empty or begin with
    [@] and joins the others, in their order, with the separator
    between them. *)
Theorem join_drops_empty_and_viewport_only_parts (sep : string) (parts : list string) :
  join sep parts
  = String.concat sep
      (filter (fun x => match x with
                        | EmptyString => false
                        | String c _ => negb (Ascii.eqb c "@")
                        end) parts).
Proof.
  unfold join. f_equal. apply filter_ext. intros x.
  destruct (kept x) eqn:Hk.
  - apply kept_iff in Hk as (c & rest & -> & Hc).
    apply Ascii.eqb_neq in Hc. now rewrite Hc.
  - destruct x as [|c rest]; [reflexivity|].
    destruct (Ascii.eqb c "@") eqn:Hc; [reflexivity|].
    assert (Hk' : kept (String c rest) = true).
    { apply kept_iff. exists c, rest. split; [reflexivity|].
      now apply Ascii.eqb_neq. }
    congruence.
Qed.

Lemma concat_cons_cons (sep x y : string) (l : list string) :
  String.concat sep (x :: y :: l) = x ++ sep ++ String.concat sep (y :: l).
Proof. reflexivity. Qed.

Lemma concat_app_nonempty (sep : string) (l1 l2 : list string) :
  l1 <> [] -> l2 <> [] ->
  String.concat sep (l1 ++ l2)
  = String.concat sep l1 ++ sep ++ String.concat sep l2.
Proof.
  intros H1 H2. induction l1 as [|x l1 IH]; [congruence|].
  destruct l1 as [|y l1].
  - destruct l2 as [|z l2]; [congruence | reflexivity].
  - cbn [app] in *. rewrite !concat_cons_cons, IH by discriminate.
    now rewrite !string_append_assoc.
Qed.

(** What [join] returns is empty, when it keeps no part, or a part
    that [join] itself would keep. *)
Lemma join_kept (sep : string) (parts : list string) :
  filter kept parts = [] /\ join sep parts = ""
  \/ filter kept parts <> [] /\ kept (join sep parts) = true.
Proof.
  unfold join. destruct (filter kept parts) as [|x l] eqn:Hf; [now left|].
  right. split; [discriminate|].
  assert (Hx : kept x = true).
  { assert (Hin : In x (filter kept parts)) by (rewrite Hf; now left).
    now apply filter_In in Hin. }
  apply kept_iff in Hx as (c & rest & -> & Hc).
  apply kept_iff. destruct l as [|y l].
  - exists c, rest. now split.
  - rewrite concat_cons_cons. cbn. eauto.
Qed.

(** X8. [join] can be applied in stages: joining the results of two
    joins gives what joining all the parts at once gives, and joining
    the result of one join gives that result. *)
Theorem join_of_joins (sep : string) (a b : list string) :
  join sep [join sep a; join sep b] = join sep (a ++ b) /\
  join sep [join sep a] = join sep a.
Proof.
  assert (Hone : forall x, kept x = true -> join sep [x] = x).
  { intros x Hx. unfold join. cbn. now rewrite Hx. }
  assert (Hnone : join sep [""] = "") by reflexivity.
  split.
  - destruct (join_kept sep a) as [[Ha Ea]|[Ha Ka]];
      destruct (join_kept sep b) as [[Hb Eb]|[Hb Kb]].
    + rewrite Ea, Eb. unfold join. rewrite filter_app, Ha, Hb. reflexivity.
    + rewrite Ea. unfold join at 1. cbn [filter]. rewrite Kb.
      change (kept "") with false. cbn [String.concat].
      unfold join. now rewrite filter_app, Ha.
    + rewrite Eb. unfold join at 1. cbn [filter]. rewrite Ka.
      change (kept "") with false. cbn [String.concat].
      unfold join. now rewrite filter_app, Hb, app_nil_r.
    + unfold join at 1. cbn [filter]. rewrite Ka, Kb.
      unfold join. rewrite filter_app, concat_app_nonempty by assumption.
      reflexivity.
  - destruct (join_kept sep a) as [[Ha Ea]|[Ha Ka]].
    + now rewrite Ea.
    + now apply Hone.
Qed.

End RouterConfigSpecProperties.

(** ** The helpers of the test file on examples *)

Section RouterConfigSpecExamples.
Import RouterConfigSpec.
Local Open Scope string_scope.

(** [vp(3)] is the viewports [$0], [$1] and [$2]. *)
Lemma vp_of_three :
  3%Z <> 1%Z /\
  vp 3 = namedViewport 0 ++ namedViewport 1 ++ namedViewport 2.
Proof.
  split; [discriminate|].
  destruct (vp_names_viewports_in_order 3) as [H _]; [discriminate|].
  rewrite H. reflexivity.
Defined.

(** Two components of a test: the hooks of [a] and of [b] alternate,
    the empty slot of [a] giving [b] a turn of its own. *)
Lemma interleave_of_two_components :
  let generators :=
    [ prepend "start" "a" ["canLoad"; ""; "load"];
      prependDeferrable "start" "b" "guard-hooks" ["beforeBind"] ] in
  (enough generators <= 20)%nat /\
  interleave 20 generators
  = Done ["start.a.canLoad"; "start.b.load"; "start.b.beforeBind"; "start.a.load"].
Proof.
  intros generators.
  assert (H : (enough generators <= 20)%nat) by (vm_compute; lia).
  split; [exact H|].
  rewrite (interleave_is_round_robin 20 generators H). reflexivity.
Defined.

(** The hooks of [a] come in the order of [a] in what [interleave]
    yields. *)
Lemma interleave_keeps_order_of_first_component :
  let a := prepend "start" "a" ["canLoad"; ""; "load"] in
  let b := prependDeferrable "start" "b" "guard-hooks" ["beforeBind"] in
  In a [a; b] /\
  exists values,
    interleave (enough [a; b]) [a; b] = Done values /\
    subsequence ["start.a.canLoad"; "start.a.load"] values.
Proof.
  intros a b.
  assert (H : In a [a; b]) by (left; reflexivity).
  split; [exact H|].
  exact (interleave_keeps_order_of_each_generator [a; b] a H).
Defined.

End RouterConfigSpecExamples.

(** ** More of the binding on examples *)

Section BindingFurtherExamples.
Import JS AttributeBinding BindingEvents.
Local Open Scope string_scope.
Local Existing Instance sampleRuntime.

(** The layout binding, bound to scope 1, after a change of the scope
    that it has not been notified of yet. *)
Lemma layoutChanged_reachable :
  reachable layoutStart
            (moved changedStore 150 (exec (dollar_bind 0 1%nat None) layoutStart)).
Proof.
  pose (w1 := exec (dollar_bind (R := sampleRuntime) 0 1%nat None) layoutStart).
  refine (reachable_step layoutStart w1 (moved changedStore 150 w1) _
            (step_environment w1 (observer w1) changedStore 150 _));
    [|vm_compute; discriminate].
  exact (reachable_step layoutStart layoutStart w1 (reachable_refl layoutStart)
           (step_bind 0 1%nat None layoutStart)).
Defined.

(** The fresh node binding is bound to scope 1 after [$bind]. *)
Lemma bind_leaves_freshNodeWorld_bound :
  Z.land State_isBound (Z.lnot State_isBinding) <> 0 /\
  let w' := exec (dollar_bind 64 1%nat (Some "part")) freshNodeWorld in
  isBound w' = true /\
  scope (binding w') = Some 1%nat /\
  part (binding w') = Some "part" /\
  persistentFlags (binding w') = 64.
Proof.
  assert (H : Z.land (State_isBound (Runtime := sampleRuntime))
                     (Z.lnot State_isBinding) <> 0)
    by (vm_compute; discriminate).
  split; [exact H|].
  destruct (bind_leaves_binding_bound_to_scope (R := sampleRuntime)
              freshNodeWorld 64 1%nat (Some "part") H)
    as (H1 & H2 & H3).
  destruct (H3 eq_refl) as (H4 & H5 & _).
  split; [exact H1|]. split; [exact H2|]. split; [exact H4|].
  rewrite H5. reflexivity.
Defined.

(** Every write of the layout binding so far has the flag of its
    direction. *)
Lemma writes_of_layoutWorld_carry_their_direction :
  reachable layoutStart layoutWorld /\
  forallb carriesDirection (trace layoutWorld) = true.
Proof.
  split; [exact layoutWorld_reachable|].
  exact (every_write_carries_its_direction (R := sampleRuntime)
           (notBound 2) layoutObserver sampleStore 100 layoutWorld
           layoutWorld_reachable).
Defined.

(** A binding bound by [$bind] right after its construction has a
    scope and the observer that [$bind] constructed. *)
Lemma constructed_then_bound_has_scope_and_observer :
  let w0 := newWorld (newBinding 2 0 false false "class" "class")
                     nodeObserver sampleStore 100 in
  let w := exec (dollar_bind 0 1%nat None) w0 in
  Z.land State_none State_isBound = 0 /\
  reachable w0 w /\
  isBound w = true /\
  (exists sc, scope (binding w) = Some sc) /\
  targetObserverSet (binding w) = true.
Proof.
  intros w0 w.
  assert (H0 : Z.land (State_none (Runtime := sampleRuntime)) State_isBound = 0)
    by reflexivity.
  assert (Hr : reachable w0 w)
    by exact (reachable_step w0 w0 w (reachable_refl w0)
                (step_bind 0 1%nat None w0)).
  assert (Hb : isBound w = true) by (vm_compute; reflexivity).
  split; [exact H0|]. split; [exact Hr|]. split; [exact Hb|].
  exact (bound_binding_has_scope_and_observer (R := sampleRuntime)
           2 0 false false "class" "class" nodeObserver sampleStore 100 w
           H0 Hr Hb).
Defined.

(** A settled [fromView] binding assigns what it is notified of, also
    when the flags of the notification ask for the target. *)
Lemma notification_on_settled_fromView_binding :
  isBound (settledWorld 4) = true /\
  mode (binding (settledWorld 4)) = BindingMode_fromView /\
  exists w',
    handleChange (VStr "typed") VUndefined 1 (settledWorld 4) = Returned w' /\
    existsb is_target_write (events_since (settledWorld 4) w') = false /\
    store w' (Some 1%nat) = VStr "typed".
Proof.
  split; [reflexivity|]. split; [reflexivity|].
  destruct (fromView_binding_only_updates_source (R := sampleRuntime)
              (settledWorld 4) (VStr "typed") VUndefined 1
              eq_refl eq_refl eq_refl)
    as (w' & H1 & H2 & _ & _ & H5); [discriminate|].
  exists w'. split; [exact H1|]. split; [exact H2|exact H5].
Defined.

(** A settled [toView] binding whose scope has changed writes the new
    value on the notification. *)
Lemma notification_after_change_of_scope :
  let w := moved changedStore 150 (settledWorld 2) in
  isBound w = true /\
  exists w',
    handleChange VUndefined VUndefined 1 w = Returned w' /\
    currentValue (observer w') = VStr "changed" /\
    store w' = changedStore.
Proof.
  intros w.
  split; [reflexivity|].
  destruct (target_change_leaves_target_at_latest_value (R := sampleRuntime)
              w VUndefined VUndefined 1 eq_refl eq_refl eq_refl)
    as (w' & H1 & H2 & _ & _ & H5).
  exists w'. split; [exact H1|]. split; [|exact H5].
  rewrite H2. reflexivity.
Defined.

(** A source that evaluates to [NaN] is written on a notification,
    and again on the next one, the target holding [NaN] by then. *)
Lemma NaN_written_twice :
  let w := moved (fun _ => VNaN) 150 (settledWorld 2) in
  isBound w = true /\
  exists w1 w2,
    handleChange VUndefined VUndefined 1 w = Returned w1 /\
    currentValue (observer w1) = VNaN /\
    handleChange VUndefined VUndefined 1 w1 = Returned w2 /\
    filter is_target_write (events_since w1 w2) = [SetValue VNaN 1].
Proof.
  intros w.
  split; [reflexivity|].
  destruct (NaN_is_propagated_every_time (R := sampleRuntime)
              w VUndefined VUndefined 1 eq_refl) as [Hfirst _].
  destruct (Hfirst eq_refl eq_refl eq_refl) as (w1 & H1 & _).
  assert (Hw1 : w1 = worldOf (handleChange VUndefined VUndefined 1 w))
    by (rewrite H1; reflexivity).
  assert (Hb1 : isBound w1 = true) by (rewrite Hw1; vm_compute; reflexivity).
  destruct (NaN_is_propagated_every_time (R := sampleRuntime)
              w1 VUndefined VUndefined 1 Hb1) as [Hsecond _].
  destruct Hsecond as (w2 & H2 & H3);
    try (rewrite Hw1; vm_compute; reflexivity).
  exists w1, w2. split; [exact H1|].
  split; [rewrite Hw1; vm_compute; reflexivity|].
  split; [exact H2|].
  rewrite H3, Hw1. vm_compute. reflexivity.
Defined.

(** A [toView] binding observes its source again after a
    notification; a [oneTime] binding does not. On a binding that was
    bound right after its construction the version is [NaN] then. *)
Lemma reconnect_on_settled_bindings :
  isBound (settledWorld 2) = true /\
  (let w := exec (dollar_bind 0 1%nat None)
                 (newWorld (newBinding 2 0 false false "class" "class")
                           nodeObserver sampleStore 100) in
   isBound w = true /\
   exists w',
     handleChange VUndefined VUndefined 1 w = Returned w' /\
     version (binding w') = NotANumber) /\
  (exists w',
      handleChange VUndefined VUndefined 1 (settledWorld 2) = Returned w' /\
      filter is_reconnect (events_since (settledWorld 2) w')
      = [Connect 1 (Some 1%nat) None; Unobserve false] /\
      version (binding w') = Count 1) /\
  (exists w',
      handleChange VUndefined VUndefined 1 (settledWorld 1) = Returned w' /\
      filter is_reconnect (events_since (settledWorld 1) w') = [] /\
      version (binding w') = Count 0).
Proof.
  split; [reflexivity|]. split; [|split].
  - intros w.
    assert (Hb : isBound w = true) by (vm_compute; reflexivity).
    split; [exact Hb|].
    destruct (target_change_reconnects_unless_oneTime (R := sampleRuntime)
                w VUndefined VUndefined 1 Hb)
      as (w' & H1 & _ & _ & _ & H5); [vm_compute; reflexivity|].
    exists w'. split; [exact H1 | exact (H5 eq_refl)].
  - destruct (target_change_reconnects_unless_oneTime (R := sampleRuntime)
                (settledWorld 2) VUndefined VUndefined 1 eq_refl eq_refl)
      as (w' & H1 & H2 & H3 & _).
    exists w'. split; [exact H1|]. split; [exact H2 | exact H3].
  - destruct (target_change_reconnects_unless_oneTime (R := sampleRuntime)
                (settledWorld 1) VUndefined VUndefined 1 eq_refl eq_refl)
      as (w' & H1 & H2 & H3 & _).
    exists w'. split; [exact H1|]. split; [exact H2 | exact H3].
Defined.

(** Two changes of scope 1, notified at 150 and at 160, before the
    render queue runs: the tick writes the second value only. *)
Lemma two_changes_on_layout_binding :
  let w := moved changedStore 150 (exec (dollar_bind 0 1%nat None) layoutStart) in
  reachable layoutStart w /\
  isBound w = true /\
  exists w1 w2,
    handleChange VUndefined VUndefined 1 w = Returned w1 /\
    handleChange VUndefined VUndefined 1 (moved changedAgainStore 160 w1)
    = Returned w2 /\
    pending (exec runRenderTask w2) = [] /\
    filter is_target_write (events_since w (exec runRenderTask w2))
    = [SetValue (VStr "changed again") 1].
Proof.
  intros w.
  assert (Hb : isBound w = true) by (vm_compute; reflexivity).
  split; [exact layoutChanged_reachable|]. split; [exact Hb|].
  destruct (last_notified_value_wins (R := sampleRuntime)
              (notBound 2) layoutObserver sampleStore 100 w
              VUndefined VUndefined 1 VUndefined VUndefined 1
              changedAgainStore 160 layoutChanged_reachable Hb)
    as (w1 & w2 & H1 & H2 & _ & H4 & H5);
    try (vm_compute; reflexivity).
  exists w1, w2. split; [exact H1|]. split; [exact H2|]. split; [exact H4|].
  rewrite H5. vm_compute. reflexivity.
Defined.

(** A two-way binding bound to another scope subscribes to its
    target, and unsubscribes when it is unbound. *)
Lemma twoWay_binding_subscribes_and_unsubscribes :
  let w := settledWorld 6 in
  let w1 := exec (dollar_bind 0 2%nat None) w in
  let w2 := exec (dollar_unbind 0) w1 in
  Z.land State_isBound (Z.lnot State_isBinding) <> 0 /\
  isBound w && scope_eqb (scope (binding w)) (Some 2%nat) = false /\
  existsb is_subscribe (events_since w w1) = true /\
  Z.land (idSlot (observer w1)) LifecycleFlags_updateSourceExpression
  = LifecycleFlags_updateSourceExpression /\
  existsb is_unsubscribe (events_since w1 w2) = true /\
  Z.land (idSlot (observer w2)) LifecycleFlags_updateSourceExpression = 0.
Proof.
  intros w w1 w2.
  assert (H : Z.land (State_isBound (Runtime := sampleRuntime))
                     (Z.lnot State_isBinding) <> 0)
    by (vm_compute; discriminate).
  assert (Hc : isBound w && scope_eqb (scope (binding w)) (Some 2%nat) = false)
    by reflexivity.
  split; [exact H|]. split; [exact Hc|].
  destruct (subscription_follows_mode_on_bind_only (R := sampleRuntime)
              w 0 2%nat None 0 H Hc) as (H1 & H2 & H3).
  assert (Hu : hasUnsubscribe (observer w1) = true) by (vm_compute; reflexivity).
  fold w1 in H3. rewrite Hu in H3. destruct H3 as (H3 & H4).
  split; [exact (eq_trans H1 eq_refl)|]. split; [exact (H2 eq_refl)|].
  split; [exact H3 | exact H4].
Defined.

End BindingFurtherExamples.
